(** * Ansible job dashboard: ingestion, store, broadcast hub and query API

    A shallow embedding of [backend/app/main.py] (the FastAPI service) and of
    the progress-report construction of the reporter plugin
    [ansible/callback_plugins/dashboard_log.py], with the properties of the
    service proved over it.

    Conventions of the embedding:
    - the two SQL tables are lists of rows in insertion (rowid) order;
    - a [datetime] is the number of microseconds since [datetime.min];
    - a finite Python [float] is the rational it denotes;
    - [datetime.utcnow()] reads a clock oracle kept in the world, one
      reading per call, in microseconds of POSIX time;
    - a handler is a computation over the world that returns or raises. *)

From Stdlib Require Import List ZArith NArith QArith String Ascii Bool Lia.
From Stdlib Require Import Sorting.Sorted Sorting.Permutation.
Import ListNotations.

Local Open Scope string_scope.
Local Open Scope Z_scope.
Local Open Scope list_scope.

(** ** Time *)

(** Microseconds elapsed since [datetime.min] (0001-01-01T00:00:00). *)
Definition datetime := N.
Definition timedelta := N.

Definition datetime_min : datetime := 0%N.

(** 1970-01-01T00:00:00, 719162 days after [datetime.min]. *)
Definition unix_epoch : datetime := (719162 * 24 * 3600 * 1000000)%N.

Definition timedelta_hours (h : N) : timedelta := (h * 3600 * 1000000)%N.
Definition timedelta_days (d : N) : timedelta := (d * 24 * 3600 * 1000000)%N.

(** ** Exceptions and outcomes *)

Inductive exn :=
| OverflowError      (* date value out of range; int too large for SQLite *)
| SendError          (* a websocket send on a dead channel *).

Inductive Outcome (A : Type) :=
| Returned (a : A)
| Raised (e : exn).
Arguments Returned {A} a.
Arguments Raised {A} e.

(** [datetime - timedelta]: Python raises [OverflowError] below
    [datetime.min]. *)
Definition datetime_sub (t : datetime) (d : timedelta) : Outcome datetime :=
  if (d <=? t)%N then Returned (t - d)%N else Raised OverflowError.

(** ** Tables *)

(** Row of table [jobs] (class [Job]). *)
Record Job := mkJob {
  id : Z;
  job_name : string;
  scope : string;
  triggered_by : string;
  status : string;
  progress : Q;
  start_time : datetime;
  end_time : option datetime
}.

(** Row of table [job_logs] (class [JobLog]); its [id] and [job_id] columns
    are [log_id] and [log_job_id] here. *)
Record JobLog := mkJobLog {
  log_id : Z;
  log_job_id : Z;
  ts : datetime;
  level : string;
  message : string
}.

Record DB := mkDB {
  jobs : list Job;
  job_logs : list JobLog
}.

(** The integer primary key given to an inserted row: one more than the
    largest key of the table, 1 for an empty table. *)
Definition next_id (ids : list Z) : Z := 1 + fold_right Z.max 0 ids.

(** The range of a SQLite INTEGER: signed, 64 bits. *)
Definition int64_min : Z := - 2 ^ 63.
Definition int64_max : Z := 2 ^ 63 - 1.

Definition in_int64 (n : Z) : bool := (int64_min <=? n) && (n <=? int64_max).

(** Binding a Python [int] as a parameter of a statement: outside the range
    of a SQLite INTEGER the driver raises [OverflowError]. *)
Definition bind_integer (n : Z) : Outcome Z :=
  if in_int64 n then Returned n else Raised OverflowError.

(** The first row of [jobs] with the given id, if any: what
    [SELECT ... WHERE jobs.id = ? LIMIT 1] yields. *)
Definition find_job (d : DB) (job_id : Z) : option Job :=
  find (fun j => id j =? job_id) (jobs d).

(** [db.query(Job).filter(Job.id == job_id).first()]: the id is bound as a
    parameter, then the row is fetched. *)
Definition query_job (d : DB) (job_id : Z) : Outcome (option Job) :=
  match bind_integer job_id with
  | Returned n => Returned (find_job d n)
  | Raised e => Raised e
  end.

(** Flush of a modified, already persistent [Job] object: the row with its
    primary key is rewritten. *)
Definition update_job (j' : Job) (d : DB) : DB :=
  mkDB (map (fun j => if id j =? id j' then j' else j) (jobs d)) (job_logs d).

(** ** Pydantic models *)

Record StartPayload := mkStartPayload {
  sp_job_name : string;
  sp_scope : string;
  sp_triggered_by : string;
  sp_job_id : option string
}.

Record ProgressPayload := mkProgressPayload {
  pp_job_id : Z;
  pp_progress : option Q;
  pp_message : option string;
  pp_level : option string
}.

Record CompletePayload := mkCompletePayload {
  cp_job_id : Z;
  cp_status : string;
  cp_message : option string
}.

(** ** Events and responses *)

(** The dict built by [job_to_dict]; an ISO-8601 text is kept as the
    [datetime] it renders. *)
Record JobDict := mkJobDict {
  d_id : Z;
  d_job_name : string;
  d_scope : string;
  d_triggered_by : string;
  d_status : string;
  d_progress : Q;
  d_start_time : option datetime;
  d_end_time : option datetime
}.

Record LogDict := mkLogDict {
  l_job_id : Z;
  l_message : string;
  l_level : option string;
  l_ts : datetime
}.

(** The dicts handed to [manager.broadcast]:
    [{"type": ..., "job": ...}] and [{"type": "job_log", "log": ...}]. *)
Inductive Message :=
| JobMessage (type : string) (job : JobDict)
| LogMessage (type : string) (log : LogDict).

(** An element of the ["logs"] list of [api_job_logs]. *)
Record LogRow := mkLogRow {
  r_ts : datetime;
  r_level : string;
  r_message : string
}.

Inductive Response :=
| RespJobId (job_id : Z)                         (* {"job_id": ...} *)
| RespOk                                         (* {"ok": True} *)
| RespError (status_code : Z) (error : string)   (* JSONResponse *)
| RespJobs (rows : list JobDict)                 (* {"jobs": [...]} *)
| RespLogs (rows : list LogRow).                 (* {"logs": [...]} *)

(** ** WebSocket manager *)

(** An observer channel: [send_text] on a channel that is no longer open
    raises; on an open one the text is delivered.  A delivered text
    [json.dumps(message, default=str)] is kept as the dict it serializes. *)
Record WebSocket := mkWebSocket {
  ws_id : nat;
  ws_open : bool;
  ws_inbox : list Message
}.

Record ConnectionManager := mkConnectionManager {
  active : list WebSocket
}.

(** ** The world a handler runs in *)

Record World := mkWorld {
  db : DB;
  manager : ConnectionManager;
  (* every dict passed to [manager.broadcast] so far, oldest first *)
  published : list Message;
  (* clock oracle: POSIX time, in microseconds, at the n-th call of
     [datetime.utcnow()] *)
  clock : nat -> N;
  ticks : nat
}.

Definition M (A : Type) : Type := World -> Outcome A * World.

Definition ret {A} (a : A) : M A := fun w => (Returned a, w).

Definition bind {A B} (m : M A) (k : A -> M B) : M B :=
  fun w =>
    match m w with
    | (Returned a, w') => k a w'
    | (Raised e, w') => (Raised e, w')
    end.

Notation "x <- m ;; k" := (bind m (fun x => k))
  (at level 61, m at next level, right associativity).
Notation "m ;;; k" := (bind m (fun _ => k))
  (at level 61, right associativity).

Definition raise {A} (e : exn) : M A := fun w => (Raised e, w).

Definition lift_outcome {A} (o : Outcome A) : M A := fun w => (o, w).

Definition get_db : M DB := fun w => (Returned (db w), w).

Definition put_db (d : DB) : M unit :=
  fun w => (Returned tt, mkWorld d (manager w) (published w) (clock w) (ticks w)).

(** The reading of the clock at tick [n], as a [datetime]. *)
Definition time_at (w : World) (n : nat) : datetime := (unix_epoch + clock w n)%N.

Definition utcnow : M datetime :=
  fun w => (Returned (time_at w (ticks w)),
            mkWorld (db w) (manager w) (published w) (clock w) (S (ticks w))).

Definition when (b : bool) (m : M unit) : M unit := if b then m else ret tt.

(** Python truthiness of a [str | None]. *)
Definition truthy (s : option string) : bool :=
  match s with
  | None => false
  | Some s => negb (s =? EmptyString)%string
  end.

(** [s or default] for a [str | None]. *)
Definition str_or (s : option string) (default : string) : string :=
  match s with
  | Some s => if (s =? EmptyString)%string then default else s
  | None => default
  end.

(** The text of a truthy [str | None]. *)
Definition text_of (s : option string) : string :=
  match s with Some s => s | None => EmptyString end.

(** ** ConnectionManager *)

Definition send_text (data : Message) (ws : WebSocket) : Outcome unit * WebSocket :=
  if ws_open ws
  then (Returned tt, mkWebSocket (ws_id ws) true (ws_inbox ws ++ [data]))
  else (Raised SendError, ws).

Definition is_raised {A} (o : Outcome A) : bool :=
  match o with Raised _ => true | Returned _ => false end.

(** [asyncio.gather] with [return_exceptions=flag], over awaitables that have
    all been run, given their outcomes: with the flag an exception is one
    more result; without it the first exception goes to the awaiter. *)
Definition gather {A} (return_exceptions : bool) (outs : list (Outcome A))
  : Outcome (list (Outcome A)) :=
  if return_exceptions then Returned outs
  else match find is_raised outs with
       | Some (Raised e) => Raised e
       | _ => Returned outs
       end.

Definition set_active (l : list WebSocket) (w : World) : World :=
  mkWorld (db w) (mkConnectionManager l) (published w) (clock w) (ticks w).

Definition connect (websocket : WebSocket) : M unit :=
  fun w => (Returned tt, set_active (active (manager w) ++ [websocket]) w).

(** [list.remove]: the first equal element, [ValueError] when absent. *)
Fixpoint list_remove (n : nat) (l : list WebSocket) : option (list WebSocket) :=
  match l with
  | [] => None
  | ws :: l' =>
      if Nat.eqb (ws_id ws) n then Some l'
      else option_map (cons ws) (list_remove n l')
  end.

Definition disconnect (websocket : WebSocket) : M unit :=
  fun w =>
    match list_remove (ws_id websocket) (active (manager w)) with
    | Some l => (Returned tt, set_active l w)
    | None => (Returned tt, w)
    end.

(** Bookkeeping only: the dict is appended to [published]. *)
Definition record_published (message : Message) : M unit :=
  fun w => (Returned tt,
            mkWorld (db w) (manager w) (published w ++ [message]) (clock w) (ticks w)).

Definition broadcast_with (return_exceptions : bool) (message : Message) : M unit :=
  record_published message ;;;
  fun w =>
    match active (manager w) with
    | [] => (Returned tt, w)
    | _ :: _ =>
        let data := message in
        let sends := map (send_text data) (active (manager w)) in
        match gather return_exceptions (map fst sends) with
        | Returned _ => (Returned tt, set_active (map snd sends) w)
        | Raised e => (Raised e, set_active (map snd sends) w)
        end
    end.

Definition broadcast (message : Message) : M unit := broadcast_with true message.

(** ** Helpers *)

(** [float(x or 0)] *)
Definition float_or_0 (x : Q) : Q := if Qeq_bool x 0 then 0%Q else x.

Definition job_to_dict (job : Job) : JobDict :=
  mkJobDict (id job) (job_name job) (scope job) (triggered_by job) (status job)
            (float_or_0 (progress job))
            (Some (start_time job))
            (end_time job).

(** INSERT into [jobs]; the column defaults fill what the constructor call
    leaves out: [status], [progress], [start_time]. *)
Definition insert_job (name sc trig : string) : M Job :=
  d <- get_db ;;
  now <- utcnow ;;
  let row := mkJob (next_id (map id (jobs d))) name sc trig "running" 0%Q now None in
  put_db (mkDB (jobs d ++ [row]) (job_logs d)) ;;;
  ret row.

(** INSERT into [job_logs]; [ts] is filled by its default. *)
Definition insert_log (job_id : Z) (msg lvl : string) : M JobLog :=
  d <- get_db ;;
  now <- utcnow ;;
  let row := mkJobLog (next_id (map log_id (job_logs d))) job_id now lvl msg in
  put_db (mkDB (jobs d) (job_logs d ++ [row])) ;;;
  ret row.

Definition set_progress (p : Q) (j : Job) : Job :=
  mkJob (id j) (job_name j) (scope j) (triggered_by j) (status j) p
        (start_time j) (end_time j).

Definition set_status (s : string) (j : Job) : Job :=
  mkJob (id j) (job_name j) (scope j) (triggered_by j) s (progress j)
        (start_time j) (end_time j).

Definition set_end_time (t : datetime) (j : Job) : Job :=
  mkJob (id j) (job_name j) (scope j) (triggered_by j) (status j) (progress j)
        (start_time j) (Some t).

(** ** API endpoints *)

(** In the three ingestion handlers [db.commit()] flushes the pending
    writes, modelled where the flush happens, and [db.refresh(job)] reads
    back the row just written, which is the flushed object
    (lemma [refresh_reads_flushed]); so the dict that is broadcast is built
    from that object. *)

Definition api_start (payload : StartPayload) : M Response :=
  new_job <- insert_job (sp_job_name payload) (sp_scope payload)
                        (sp_triggered_by payload) ;;
  insert_log (id new_job) "Job started" "info" ;;;
  broadcast (JobMessage "job_start" (job_to_dict new_job)) ;;;
  ret (RespJobId (id new_job)).

Definition api_progress (payload : ProgressPayload) : M Response :=
  d <- get_db ;;
  row <- lift_outcome (query_job d (pp_job_id payload)) ;;
  match row with
  | None => ret (RespError 404 "job not found")
  | Some job =>
      let job := match pp_progress payload with
                 | Some p => set_progress p job
                 | None => job
                 end in
      put_db (update_job job d) ;;;
      when (truthy (pp_message payload))
           (insert_log (pp_job_id payload) (text_of (pp_message payload))
                       (str_or (pp_level payload) "info") ;;; ret tt) ;;;
      broadcast (JobMessage "job_progress" (job_to_dict job)) ;;;
      when (truthy (pp_message payload))
           (now <- utcnow ;;
            broadcast (LogMessage "job_log"
                         (mkLogDict (pp_job_id payload) (text_of (pp_message payload))
                                    (pp_level payload) now))) ;;;
      ret RespOk
  end.

Definition api_complete (payload : CompletePayload) : M Response :=
  d <- get_db ;;
  row <- lift_outcome (query_job d (cp_job_id payload)) ;;
  match row with
  | None => ret (RespError 404 "job not found")
  | Some job =>
      let job := set_status (cp_status payload) job in
      let job := set_progress 100%Q job in
      now <- utcnow ;;
      let job := set_end_time now job in
      put_db (update_job job d) ;;;
      when (truthy (cp_message payload))
           (insert_log (cp_job_id payload) (text_of (cp_message payload)) "info" ;;;
            ret tt) ;;;
      broadcast (JobMessage "job_complete" (job_to_dict job)) ;;;
      ret RespOk
  end.

(** ** Query API *)

(** ORDER BY: a stable insertion sort of the rows in table order; [leb a b]
    says that [a] may come before [b]. *)
Fixpoint insert_by {A} (leb : A -> A -> bool) (x : A) (l : list A) : list A :=
  match l with
  | [] => [x]
  | y :: l' => if leb x y then x :: l else y :: insert_by leb x l'
  end.

Definition order_by {A} (leb : A -> A -> bool) (l : list A) : list A :=
  fold_right (insert_by leb) [] l.

(** The order relation decided by [leb]. *)
Definition le_of {A} (leb : A -> A -> bool) (a b : A) : Prop := leb a b = true.

Definition start_time_desc (a b : Job) : bool := (start_time b <=? start_time a)%N.
Definition ts_asc (a b : JobLog) : bool := (ts a <=? ts b)%N.

Definition range_cutoff (range : string) (now : datetime) : Outcome datetime :=
  if (range =? "24h")%string then datetime_sub now (timedelta_hours 24)
  else if (range =? "7d")%string then datetime_sub now (timedelta_days 7)
  else if (range =? "30d")%string then datetime_sub now (timedelta_days 30)
  else Returned datetime_min.

Definition api_jobs (range : string) : M Response :=
  now <- utcnow ;;
  cutoff <- lift_outcome (range_cutoff range now) ;;
  d <- get_db ;;
  let rows := order_by start_time_desc
                (filter (fun j => (cutoff <=? start_time j)%N) (jobs d)) in
  ret (RespJobs (map job_to_dict rows)).

Definition log_row (r : JobLog) : LogRow := mkLogRow (ts r) (level r) (message r).

(** The integers that the statement of [api_job_logs] binds when it is
    executed: the job id, and the limit and the offset when applied. *)
Definition job_logs_parameters (job_id limit offset : Z) : list Z :=
  job_id
    :: (if negb (limit =? 0) && (limit >? 0) then [limit] else [])
    ++ (if negb (offset =? 0) && (offset >? 0) then [offset] else []).

(** Binding the parameters of a statement, one by one. *)
Fixpoint bind_integers (params : list Z) : Outcome unit :=
  match params with
  | [] => Returned tt
  | n :: params' =>
      match bind_integer n with
      | Returned _ => bind_integers params'
      | Raised e => Raised e
      end
  end.

Definition api_job_logs (job_id limit offset : Z) : M Response :=
  d <- get_db ;;
  let q := order_by ts_asc (filter (fun r => log_job_id r =? job_id) (job_logs d)) in
  let q := if negb (offset =? 0) && (offset >? 0) then skipn (Z.to_nat offset) q else q in
  let q := if negb (limit =? 0) && (limit >? 0) then firstn (Z.to_nat limit) q else q in
  (* rows = q.all() *)
  lift_outcome (bind_integers (job_logs_parameters job_id limit offset)) ;;;
  ret (RespLogs (map log_row q)).

(** ** Reporter side: the body posted to [/api/jobs/progress] *)

Definition lower_ascii (c : ascii) : ascii :=
  let n := nat_of_ascii c in
  if (Nat.leb 65 n && Nat.leb n 90)%bool then ascii_of_nat (n + 32) else c.

Fixpoint lower (s : string) : string :=
  match s with
  | EmptyString => EmptyString
  | String c s' => String (lower_ascii c) (lower s')
  end.

(** The JSON object built by [_post_progress]; an absent key is [None]. *)
Record ProgressBody := mkProgressBody {
  b_job_id : Z;
  b_message : option string;
  b_level : option string;
  b_progress : option Z
}.

(** [_post_progress(job_id, text, level, progress)]: the body handed to
    [_post_json], [None] when the method returns without posting. *)
Definition _post_progress (job_id : Z) (text : option string) (level : string)
           (progress : option Z) : option ProgressBody :=
  match text, progress with
  | None, None => None
  | _, _ =>
      let has_text := match text with Some _ => true | None => false end in
      Some (mkProgressBody
              job_id
              text
              (if negb (level =? EmptyString)%string
                  && (has_text || negb (lower level =? "info")%string)
               then Some level else None)
              (option_map (fun p => Z.max 0 (Z.min 100 p)) progress))
  end.

(** Validation of the posted body as a [ProgressPayload]: an integer
    [progress] becomes a float, an absent [level] takes the default. *)
Definition ProgressPayload_validate (b : ProgressBody) : ProgressPayload :=
  mkProgressPayload (b_job_id b)
                    (option_map inject_Z (b_progress b))
                    (b_message b)
                    (match b_level b with Some l => Some l | None => Some "info" end).

(** ** Reports and runs of the service *)

Inductive Report :=
| Start (payload : StartPayload)
| Progress (payload : ProgressPayload)
| Complete (payload : CompletePayload).

Definition handle (r : Report) : M Response :=
  match r with
  | Start p => api_start p
  | Progress p => api_progress p
  | Complete p => api_complete p
  end.

(** The world after a sequence of reports, whatever each one answered. *)
Fixpoint run (rs : list Report) (w : World) : World :=
  match rs with
  | [] => w
  | r :: rs' => run rs' (snd (handle r w))
  end.

(** The service at start-up: empty tables, no observer, nothing published. *)
Definition initial (clk : nat -> N) : World :=
  mkWorld (mkDB [] []) (mkConnectionManager []) [] clk 0.

(** ** The clamp of the specification *)


(** ** Statuses *)

Definition terminal (s : string) : Prop := s = "success" \/ s = "failed".

Definition valid_status (s : string) : Prop := s = "running" \/ terminal s.

(** A completion report as the reporter sends it: a terminal status. *)
Definition terminal_report (r : Report) : Prop :=
  match r with
  | Complete p => terminal (cp_status p)
  | _ => True
  end.

(** Every log row references a row of [jobs]. *)
Definition logs_reference_jobs (d : DB) : Prop :=
  forall r, In r (job_logs d) -> In (log_job_id r) (map id (jobs d)).

(** ** Objects at the flush, the cutoff of the specification, and a small
    world for the concrete cases *)

(** The job object of [api_progress] at the flush. *)
Definition progress_job (payload : ProgressPayload) (job : Job) : Job :=
  match pp_progress payload with
  | Some p => set_progress p job
  | None => job
  end.

(** The job object of [api_complete] at the flush. *)
Definition complete_job (payload : CompletePayload) (now : datetime) (job : Job) : Job :=
  set_end_time now (set_progress 100%Q (set_status (cp_status payload) job)).

Definition demo_clock (n : nat) : N := N.of_nat n.

Definition demo_start : StartPayload := mkStartPayload "Deploy" "all" "ops" None.

(** The world after one start report: job 1, running. *)
Definition demo_world : World := run [Start demo_start] (initial demo_clock).

Definition demo_progress_150 : ProgressPayload :=
  mkProgressPayload 1 (Some (150 # 1)) None (Some "info").



Definition demo_complete : CompletePayload :=
  mkCompletePayload 1 "success" (Some "Playbook completed successfully.").

Definition demo_run : list Report :=
  [Start demo_start; Progress demo_progress_150; Complete demo_complete].

(** The cutoff that the specification attaches to a range keyword: the
    last 24 hours, 7 days or 30 days before [now]; any other keyword, no
    cutoff. *)
Definition spec_cutoff (range : string) (now : datetime) : datetime :=
  if (range =? "24h")%string then (now - timedelta_hours 24)%N
  else if (range =? "7d")%string then (now - timedelta_days 7)%N
  else if (range =? "30d")%string then (now - timedelta_days 30)%N
  else datetime_min.

Definition demo_event : Message :=
  JobMessage "job_start" (mkJobDict 1 "Deploy" "all" "ops" "running" 0%Q None None).

(** Three observers, the middle one dead. *)
Definition demo_hub : World :=
  set_active [mkWebSocket 1 true []; mkWebSocket 2 false []; mkWebSocket 3 true []]
             demo_world.

(** ** Observers and counting, for the properties of runs *)

(** What an observer's channel looks like after the events [evs] were sent
    to it one by one: an open channel has them appended to its inbox, a dead
    one is left as it is. *)
Definition deliver (evs : list Message) (ws : WebSocket) : WebSocket :=
  if ws_open ws then mkWebSocket (ws_id ws) true (ws_inbox ws ++ evs) else ws.

Definition is_start (r : Report) : bool :=
  match r with Start _ => true | _ => false end.

(** The keys 1, 2, ..., n. *)
Definition keys_upto (n : nat) : list Z := map Z.of_nat (seq 1 n).

(** A clock that never goes back. *)
Definition monotone (clk : nat -> N) : Prop :=
  forall n m, (n <= m)%nat -> (clk n <= clk m)%N.

(** The log table is in ascending order of [ts] and holds no timestamp
    later than the next clock reading. *)
Definition logs_in_ts_order (w : World) : Prop :=
  StronglySorted (fun a b => (ts a <= ts b)%N) (job_logs (db w)) /\
  Forall (fun l => (ts l <= time_at w (ticks w))%N) (job_logs (db w)).

(** ** Reporter side: chunked upload and URLs *)

(** The loop of [_post_log_chunks]: the chunks [text[i:i+chunk_size]] cut
    from index [i] on, in the order they are posted; [None] when the loop has
    not finished within [fuel] iterations.  The only caller leaves
    [chunk_size] at its default, 7000; sizes are natural numbers here. *)
Fixpoint post_log_chunks_loop (fuel : nat) (text : string) (chunk_size i : nat)
  : option (list string) :=
  if (i <? String.length text)%nat then
    match fuel with
    | O => None
    | S fuel' =>
        option_map (cons (substring i chunk_size text))
                   (post_log_chunks_loop fuel' text chunk_size (i + chunk_size))
    end
  else Some [].

(** [_post_log_chunks(job_id, text, chunk_size)]: the bodies posted, each
    chunk through [_post_progress(job_id, chunk, level="info")]. *)
Definition _post_log_chunks (fuel : nat) (job_id : Z) (text : string) (chunk_size : nat)
  : option (list ProgressBody) :=
  option_map
    (flat_map (fun chunk =>
                 match _post_progress job_id (Some chunk) "info" None with
                 | Some body => [body]
                 | None => []
                 end))
    (post_log_chunks_loop fuel text chunk_size 0).

(** The reports the service receives for a list of posted bodies. *)
Definition progress_reports (bodies : list ProgressBody) : list Report :=
  map (fun b => Progress (ProgressPayload_validate b)) bodies.

(** [s.rstrip('/')] *)
Fixpoint rstrip_slash (s : string) : string :=
  match s with
  | EmptyString => EmptyString
  | String c s' =>
      match rstrip_slash s' with
      | EmptyString => if Ascii.eqb c "/" then EmptyString else String c EmptyString
      | r => String c r
      end
  end.

(** [path.startswith('/')] *)
Definition startswith_slash (path : string) : bool :=
  match path with
  | String c _ => Ascii.eqb c "/"
  | EmptyString => false
  end.

(** [_api_url(path)], for the [dashboard_url] of the plugin object. *)
Definition _api_url (dashboard_url : option string) (path : string) : string :=
  let base := rstrip_slash (str_or dashboard_url "http://localhost:8000") in
  let suffix := if startswith_slash path then path else String "/" path in
  String.append base suffix.

(** [s.endswith('/')] *)
Fixpoint endswith_slash (s : string) : bool :=
  match s with
  | EmptyString => false
  | String c EmptyString => Ascii.eqb c "/"
  | String _ s' => endswith_slash s'
  end.

(** The concatenation of a list of strings. *)
Definition join (l : list string) : string := fold_right String.append EmptyString l.

(** [s[n:]] *)
Fixpoint skip (n : nat) (s : string) : string :=
  match n, s with
  | O, _ => s
  | S n', EmptyString => EmptyString
  | S n', String _ s' => skip n' s'
  end.

(** ** Reporter side: the queue of lines and the progress counter *)

Module CallbackModule.

(** The attributes of the plugin object used by the queueing and progress
    methods, and [posted]: the bodies handed to [_post_json] for
    [/api/jobs/progress] so far, oldest first. *)
Record State := mkState {
  job_id : option Z;
  _buffer : list string;
  _pending_lines : list (string * string);
  _sent_any : bool;
  _progress_total : Z;
  _tasks_started : Z;
  _last_progress_sent : Z;
  posted : list ProgressBody
}.

(** The attributes as [v2_playbook_on_start] resets them. *)
Definition reset : State := mkState None [] [] false 0 0 0 [].

Definition set_job_id (j : option Z) (s : State) : State :=
  mkState j (_buffer s) (_pending_lines s) (_sent_any s) (_progress_total s)
          (_tasks_started s) (_last_progress_sent s) (posted s).

Definition set_pending_lines (l : list (string * string)) (s : State) : State :=
  mkState (job_id s) (_buffer s) l (_sent_any s) (_progress_total s)
          (_tasks_started s) (_last_progress_sent s) (posted s).

Definition set_buffer (l : list string) (s : State) : State :=
  mkState (job_id s) l (_pending_lines s) (_sent_any s) (_progress_total s)
          (_tasks_started s) (_last_progress_sent s) (posted s).

Definition set_tasks_started (n : Z) (s : State) : State :=
  mkState (job_id s) (_buffer s) (_pending_lines s) (_sent_any s) (_progress_total s)
          n (_last_progress_sent s) (posted s).

Definition set_last_progress_sent (n : Z) (s : State) : State :=
  mkState (job_id s) (_buffer s) (_pending_lines s) (_sent_any s) (_progress_total s)
          (_tasks_started s) n (posted s).

(** Python truthiness of an [int | None]. *)
Definition truthy_int (j : option Z) : bool :=
  match j with
  | Some n => negb (n =? 0)
  | None => false
  end.

(** [s.endswith('\n')] *)
Fixpoint endswith_newline (s : string) : bool :=
  match s with
  | EmptyString => false
  | String c EmptyString => Ascii.eqb c "010"
  | String _ s' => endswith_newline s'
  end.

(** [piece if piece.endswith('\n') else f"{piece}\n"] *)
Definition terminate (piece : string) : string :=
  if endswith_newline piece then piece
  else String.append piece (String "010" EmptyString).

(** [self._post_progress(job_id, text, level, progress)] on the object: the
    body built by [_post_progress] is handed to [_post_json], whose errors
    are swallowed. *)
Definition post_progress (job_id : Z) (text : option string) (level : string)
           (progress : option Z) (s : State) : State :=
  match _post_progress job_id text level progress with
  | None => s
  | Some body =>
      mkState (CallbackModule.job_id s) (_buffer s) (_pending_lines s) true
              (_progress_total s) (_tasks_started s) (_last_progress_sent s)
              (posted s ++ [body])
  end.

Section Environment.

(** What [self._discover_job_id()] returns: the job id configured through
    DASHBOARD_JOB_ID, if any and if it parses as an integer. *)
Variable discovered : option Z.

(** [str.splitlines(keepends=True)] *)
Variable splitlines : string -> list string.

(** [int((a / b) * 100)], computed in floating point. *)
Variable percent : Z -> Z -> Z.

Definition _ensure_job_id (s : State) : State * option Z :=
  if truthy_int (job_id s) then (s, job_id s)
  else match discovered with
       | Some n => (set_job_id (Some n) s, Some n)
       | None => (s, job_id s)
       end.

Definition _flush_pending_lines (s : State) : State :=
  match _pending_lines s with
  | [] => s
  | _ :: _ =>
      let (s, jid) := _ensure_job_id s in
      match jid with
      | Some n =>
          if negb (n =? 0) then
            let pending := _pending_lines s in
            fold_left (fun s (entry : string * string) =>
                         post_progress n (Some (fst entry)) (snd entry) None s)
                      pending (set_pending_lines [] s)
          else s
      | None => s
      end
  end.

Definition _queue_message (text : option string) (level : string) (split_lines : bool)
           (s : State) : State :=
  match text with
  | None => s
  | Some rendered =>
      if (rendered =? EmptyString)%string then s
      else
        let pieces :=
          if split_lines
          then match splitlines rendered with
               | [] => [rendered]
               | l => l
               end
          else [rendered] in
        let s :=
          fold_left (fun s piece =>
                       set_pending_lines (_pending_lines s ++ [(terminate piece, level)]) s)
                    pieces s in
        _flush_pending_lines s
  end.

Definition _emit (text : string) (s : State) : State :=
  _queue_message (Some text) "info" true (set_buffer (_buffer s ++ [text]) s).

(** [_update_job_id(value)], given what [int(str(value).strip())] yields:
    [None] stands for a [value] that is [None] or does not parse, the two
    cases in which the method returns at once. *)
Definition _update_job_id (candidate : option Z) (s : State) : State :=
  match candidate with
  | None => s
  | Some c =>
      match job_id s with
      | Some j => if j =? c then s else _flush_pending_lines (set_job_id (Some c) s)
      | None => _flush_pending_lines (set_job_id (Some c) s)
      end
  end.

(** [_record_task_start(task)], given [getattr(task, 'action', None)]. *)
Definition _record_task_start (action : option string) (s : State) : State :=
  let is_meta := match action with
                 | Some a => (a =? "meta")%string
                 | None => false
                 end in
  if is_meta then s
  else
    let s := set_tasks_started (_tasks_started s + 1) s in
    if _progress_total s <=? 0 then s
    else
      let (s, jid) := _ensure_job_id s in
      match jid with
      | Some n =>
          if negb (n =? 0) then
            let pct := percent (_tasks_started s) (Z.max 1 (_progress_total s)) in
            let pct := Z.max 0 (Z.min 99 pct) in
            if pct >? _last_progress_sent s
            then set_last_progress_sent pct (post_progress n None "info" (Some pct) s)
            else s
          else s
      | None => s
      end.

End Environment.

(** The messages that have been handed over, posted or still pending, in
    the order they were queued. *)
Definition all_lines (s : State) : list string :=
  flat_map (fun b => match b_message b with Some m => [m] | None => [] end) (posted s)
  ++ map fst (_pending_lines s).

(** The progress values of a list of posted bodies. *)
Definition progress_values (bodies : list ProgressBody) : list Z :=
  flat_map (fun b => match b_progress b with Some v => [v] | None => [] end) bodies.

(** The body that carries one queued line (text and level) for job [n]. *)
Definition line_body (n : Z) (entry : string * string) : ProgressBody :=
  mkProgressBody n (Some (fst entry))
                 (if (snd entry =? EmptyString)%string then None else Some (snd entry))
                 None.


(** A job id is at hand: on the object, or configured. *)
Definition job_known (discovered : option Z) (s : State) : bool :=
  truthy_int (job_id s) || truthy_int discovered.

(** The job id that [_ensure_job_id] settles on. *)
Definition effective_job_id (discovered : option Z) (s : State) : option Z :=
  if truthy_int (job_id s) then job_id s
  else match discovered with
       | Some n => Some n
       | None => job_id s
       end.

(** [_record_task_start] for the tasks of a run, in order. *)
Definition record_tasks (discovered : option Z) (percent : Z -> Z -> Z)
           (actions : list (option string)) (s : State) : State :=
  fold_left (fun s a => _record_task_start discovered percent a s) actions s.

End CallbackModule.

(** ** Reporter side: custom stats *)

(** The Python values that custom stats are made of: dicts with string
    keys, in insertion order, lists (or tuples), and scalars, which the
    search treats alike. *)
#[local] Set Warnings "-register-all".

Inductive pyobj :=
| PyNone
| PyInt (n : Z)
| PyStr (s : string)
| PyDict (items : list (string * pyobj))
| PyList (items : list pyobj).

(** [obj.get(key)] for a key that may be absent. *)
Fixpoint dict_get (key : string) (items : list (string * pyobj)) : option pyobj :=
  match items with
  | [] => None
  | (k, v) :: items' => if (k =? key)%string then Some v else dict_get key items'
  end.

(** [find_in(obj, target)] of [_get_custom_stat]; [PyNone] is Python's
    [None]. *)
Fixpoint find_in (obj : pyobj) (target : string) {struct obj} : pyobj :=
  match obj with
  | PyDict items =>
      match dict_get target items with
      | Some v => v
      | None =>
          let fix under_run (l : list (string * pyobj)) : option pyobj :=
            match l with
            | [] => None
            | (k, v) :: l' =>
                if (k =? "_run")%string then Some (find_in v target) else under_run l'
            end in
          match under_run items with
          | Some found => found
          | None =>
              (fix values (l : list (string * pyobj)) : pyobj :=
                 match l with
                 | [] => PyNone
                 | (_, v) :: l' =>
                     match find_in v target with
                     | PyNone => values l'
                     | found => found
                     end
                 end) items
          end
      end
  | PyList items =>
      (fix each (l : list pyobj) : pyobj :=
         match l with
         | [] => PyNone
         | it :: l' =>
             match find_in it target with
             | PyNone => each l'
             | found => found
             end
         end) items
  | _ => PyNone
  end.

(** [_get_custom_stat(stats, key)], given [stats.custom], [stats._custom]
    and what [stats.get_custom_stats()] returns, each [None] when the
    attribute is missing. *)
Definition _get_custom_stat (custom _custom from_getter : option pyobj) (key : string)
  : pyobj :=
  let look (source : option pyobj) : pyobj :=
    match source with
    | Some obj => find_in obj key
    | None => PyNone
    end in
  match look custom with
  | PyNone => match look _custom with
              | PyNone => look from_getter
              | val => val
              end
  | val => val
  end.

(** [v] is the value stored under [key] in some dict inside [obj]. *)
Inductive stored_under (key : string) (v : pyobj) : pyobj -> Prop :=
| stored_here (items : list (string * pyobj)) :
    In (key, v) items -> stored_under key v (PyDict items)
| stored_in_value (items : list (string * pyobj)) (k : string) (child : pyobj) :
    In (k, child) items -> stored_under key v child ->
    stored_under key v (PyDict items)
| stored_in_item (items : list pyobj) (child : pyobj) :
    In child items -> stored_under key v child ->
    stored_under key v (PyList items).

(** Induction over nested Python values. *)
Fixpoint pyobj_nested_ind (P : pyobj -> Prop)
         (HNone : P PyNone) (HInt : forall n, P (PyInt n)) (HStr : forall s, P (PyStr s))
         (HDict : forall items, Forall (fun kv => P (snd kv)) items -> P (PyDict items))
         (HList : forall items, Forall P items -> P (PyList items))
         (obj : pyobj) {struct obj} : P obj :=
  match obj with
  | PyNone => HNone
  | PyInt n => HInt n
  | PyStr s => HStr s
  | PyDict items =>
      HDict items
            ((fix go (l : list (string * pyobj)) : Forall (fun kv => P (snd kv)) l :=
                match l with
                | [] => Forall_nil _
                | kv :: l' =>
                    Forall_cons kv
                                (pyobj_nested_ind P HNone HInt HStr HDict HList (snd kv))
                                (go l')
                end) items)
  | PyList items =>
      HList items
            ((fix go (l : list pyobj) : Forall P l :=
                match l with
                | [] => Forall_nil _
                | it :: l' =>
                    Forall_cons it
                                (pyobj_nested_ind P HNone HInt HStr HDict HList it)
                                (go l')
                end) items)
  end.

(** ** Reporter side: settings *)

(** [line.split('=', 1)] for a line that holds ['=']; [None] when it holds
    none. *)
Fixpoint split_once (line : string) : option (string * string) :=
  match line with
  | EmptyString => None
  | String c rest =>
      if Ascii.eqb c "=" then Some (EmptyString, rest)
      else match split_once rest with
           | Some (key, value) => Some (String c key, value)
           | None => None
           end
  end.

(** [line.startswith('#')] *)
Definition startswith_hash (line : string) : bool :=
  match line with
  | String c _ => Ascii.eqb c "#"
  | EmptyString => false
  end.

(** [settings[key] = value] on a dict kept in insertion order. *)
Fixpoint settings_set (key value : string) (settings : list (string * string))
  : list (string * string) :=
  match settings with
  | [] => [(key, value)]
  | (k, v) :: rest =>
      if (k =? key)%string then (k, value) :: rest
      else (k, v) :: settings_set key value rest
  end.

(** [settings.get(name)] *)
Fixpoint settings_get (name : string) (settings : list (string * string))
  : option string :=
  match settings with
  | [] => None
  | (k, v) :: rest => if (k =? name)%string then Some v else settings_get name rest
  end.

Section EnvFile.

(** [str.strip()] *)
Variable strip : string -> string.

(** One turn of the loop of [_load_env_file]: the key and value that the
    line assigns, [None] where the loop continues without assigning. *)
Definition line_binding (raw_line : string) : option (string * string) :=
  let line := strip raw_line in
  if (line =? EmptyString)%string || startswith_hash line then None
  else match split_once line with
       | None => None
       | Some (key, value) =>
           let key := strip key in
           if (key =? EmptyString)%string then None
           else Some (key, strip value)
       end.

(** [_load_env_file()], given the lines of [dashboard.env]
    ([read_text().splitlines()]), [None] when the file does not exist or
    cannot be read. *)
Definition _load_env_file (lines : option (list string)) : list (string * string) :=
  match lines with
  | None => []
  | Some raw_lines =>
      fold_left (fun settings raw_line =>
                   match line_binding raw_line with
                   | Some (key, value) => settings_set key value settings
                   | None => settings
                   end)
                raw_lines []
  end.

(** The assignments of the lines, in file order. *)
Definition bindings (raw_lines : list string) : list (string * string) :=
  flat_map (fun raw_line => match line_binding raw_line with
                            | Some kv => [kv]
                            | None => []
                            end) raw_lines.

End EnvFile.

(** [_get_setting(name, default)], for the environment of the process and
    the settings loaded from [dashboard.env]. *)
Definition _get_setting (getenv : string -> option string)
           (_env_settings : list (string * string))
           (name : string) (default : option string) : option string :=
  match getenv name with
  | Some value => Some value
  | None =>
      match _env_settings with
      | [] => default
      | _ :: _ =>
          match settings_get name _env_settings with
          | Some fetched => Some fetched
          | None => default
          end
      end
  end.

(** The value of the last assignment to [name] in a list of assignments. *)
Definition last_binding (name : string) (l : list (string * string)) : option string :=
  settings_get name (rev l).

(** ['=' in s] *)
Fixpoint has_equals (s : string) : bool :=
  match s with
  | EmptyString => false
  | String c rest => Ascii.eqb c "=" || has_equals rest
  end.

(** * Properties *)

(** ** The monad and the hub *)

Lemma broadcast_eq (message : Message) (w : World) :
  broadcast message w =
  (Returned tt,
   mkWorld (db w)
           (mkConnectionManager
              (map (fun ws => snd (send_text message ws)) (active (manager w))))
           (published w ++ [message]) (clock w) (ticks w)).
Proof.
  destruct w as [d [a] p c t].
  unfold broadcast, broadcast_with, bind, record_published, gather, set_active.
  cbn. destruct a as [|ws a]; cbn; [reflexivity|].
  now rewrite map_map.
Qed.

Lemma broadcast_db message w : db (snd (broadcast message w)) = db w.
Proof. now rewrite broadcast_eq. Qed.

(** ** Binding integers *)

Lemma int64_bounds : int64_min = -9223372036854775808 /\ int64_max = 9223372036854775807.
Proof. split; reflexivity. Qed.

Lemma in_int64_iff (n : Z) : in_int64 n = true <-> int64_min <= n <= int64_max.
Proof. unfold in_int64. rewrite andb_true_iff, !Z.leb_le. tauto. Qed.

Lemma query_job_in_range (d : DB) (i : Z) :
  in_int64 i = true -> query_job d i = Returned (find_job d i).
Proof. intros H. unfold query_job, bind_integer. now rewrite H. Qed.


(** A job is known to a handler when its query returns a row: the id is in
    range and the table has a row with it. *)
Lemma query_job_known (d : DB) (i : Z) (o : option Job) :
  query_job d i = Returned o <-> in_int64 i = true /\ find_job d i = o.
Proof.
  unfold query_job, bind_integer. destruct (in_int64 i); split.
  - intros H. inversion H. auto.
  - intros [_ ->]. reflexivity.
  - discriminate.
  - intros [H _]. discriminate.
Qed.

Lemma query_job_raised (d : DB) (i : Z) (e : exn) :
  query_job d i = Raised e <-> in_int64 i = false /\ e = OverflowError.
Proof.
  unfold query_job, bind_integer. destruct (in_int64 i); split.
  - discriminate.
  - intros [H _]. discriminate.
  - intros H. inversion H. auto.
  - intros [_ ->]. reflexivity.
Qed.

Lemma query_job_intro (d : DB) (i : Z) (j : Job) :
  in_int64 i = true -> find_job d i = Some j -> query_job d i = Returned (Some j).
Proof. intros R H. apply query_job_known. auto. Qed.

(** ** Lookups in the [jobs] table *)

Lemma find_job_Some d i j :
  find_job d i = Some j -> In j (jobs d) /\ id j = i.
Proof.
  unfold find_job. intros H. apply find_some in H.
  destruct H as [Hin Heq]. split; [assumption|]. now apply Z.eqb_eq.
Qed.

Lemma find_job_None d i :
  (forall j, In j (jobs d) -> id j <> i) -> find_job d i = None.
Proof.
  unfold find_job. induction (jobs d) as [|j l IH]; cbn; intros H; [reflexivity|].
  destruct (Z.eqb_spec (id j) i) as [E|_].
  - exfalso. apply (H j); auto.
  - apply IH. intros j' Hj'. apply H. now right.
Qed.

Lemma find_map_same_id (f : Job -> Job) (l : list Job) (i : Z) :
  (forall j, id (f j) = id j) ->
  find (fun j => id j =? i) (map f l) = option_map f (find (fun j => id j =? i) l).
Proof.
  intros Hf. induction l as [|j l IH]; cbn; [reflexivity|].
  rewrite Hf. destruct (id j =? i); [reflexivity|exact IH].
Qed.

Lemma find_update_job (j' : Job) (d : DB) (i : Z) :
  find_job (update_job j' d) i =
  option_map (fun j => if id j =? id j' then j' else j) (find_job d i).
Proof.
  unfold find_job, update_job. cbn. apply find_map_same_id.
  intros j. destruct (Z.eqb_spec (id j) (id j')); congruence.
Qed.

(** The row read back by [db.refresh(job)] is the object just flushed. *)
Lemma refresh_reads_flushed (d : DB) (j j' : Job) :
  find_job d (id j') = Some j ->
  find_job (update_job j' d) (id j') = Some j'.
Proof.
  intros H. rewrite find_update_job, H. cbn.
  apply find_job_Some in H. destruct H as [_ ->]. now rewrite Z.eqb_refl.
Qed.

Lemma find_app_Some {A} (f : A -> bool) (l l' : list A) (x : A) :
  find f l = Some x -> find f (l ++ l') = Some x.
Proof.
  induction l as [|y l IH]; cbn; [discriminate|].
  destruct (f y); [trivial|exact IH].
Qed.

Lemma find_app_None {A} (f : A -> bool) (l l' : list A) :
  find f l = None -> find f (l ++ l') = find f l'.
Proof.
  induction l as [|y l IH]; cbn; [reflexivity|].
  destruct (f y); [discriminate|exact IH].
Qed.

(** ** Primary keys *)

Lemma fold_max_ge (ids : list Z) (i : Z) :
  In i ids -> i <= fold_right Z.max 0 ids.
Proof.
  induction ids as [|k ids IH]; cbn; [tauto|].
  intros [->|H]; [lia|]. specialize (IH H). lia.
Qed.

Lemma next_id_fresh (ids : list Z) (i : Z) : In i ids -> i < next_id ids.
Proof. intros H. apply fold_max_ge in H. unfold next_id. lia. Qed.

Lemma next_id_positive (ids : list Z) : 0 < next_id ids.
Proof.
  unfold next_id. assert (0 <= fold_right Z.max 0 ids); [|lia].
  induction ids; cbn; lia.
Qed.

(** ** What each ingestion handler does to the world *)

Arguments broadcast : simpl never.
Arguments unix_epoch : simpl never.

Ltac run_handler :=
  repeat (progress
            (try unfold insert_job; try unfold insert_log; try unfold bind;
             try unfold get_db; try unfold put_db; try unfold utcnow;
             try unfold ret; try unfold time_at;
             cbn [when fst snd db manager published clock ticks jobs job_logs
                  update_job];
             try rewrite broadcast_eq)).

Lemma api_start_effect (payload : StartPayload) (w : World) :
  let new_job := mkJob (next_id (map id (jobs (db w))))
                       (sp_job_name payload) (sp_scope payload)
                       (sp_triggered_by payload) "running" 0%Q
                       (time_at w (ticks w)) None in
  let log := mkJobLog (next_id (map log_id (job_logs (db w)))) (id new_job)
                      (time_at w (S (ticks w))) "info" "Job started" in
  let w' := snd (api_start payload w) in
  fst (api_start payload w) = Returned (RespJobId (id new_job)) /\
  jobs (db w') = jobs (db w) ++ [new_job] /\
  job_logs (db w') = job_logs (db w) ++ [log] /\
  published w' = published w ++ [JobMessage "job_start" (job_to_dict new_job)].
Proof.
  destruct w as [d m p c t]. unfold api_start. run_handler. auto.
Qed.

Lemma api_progress_unknown (payload : ProgressPayload) (w : World) :
  query_job (db w) (pp_job_id payload) = Returned None ->
  api_progress payload w = (Returned (RespError 404 "job not found"), w).
Proof.
  intros H. unfold api_progress, bind, get_db, lift_outcome. now rewrite H.
Qed.

Lemma api_progress_raised (payload : ProgressPayload) (w : World) (e : exn) :
  query_job (db w) (pp_job_id payload) = Raised e ->
  api_progress payload w = (Raised e, w).
Proof.
  intros H. unfold api_progress, bind, get_db, lift_outcome. now rewrite H.
Qed.

Lemma api_progress_effect (payload : ProgressPayload) (w : World) (job : Job) :
  query_job (db w) (pp_job_id payload) = Returned (Some job) ->
  let job' := progress_job payload job in
  let said := truthy (pp_message payload) in
  let log := mkJobLog (next_id (map log_id (job_logs (db w)))) (pp_job_id payload)
                      (time_at w (ticks w)) (str_or (pp_level payload) "info")
                      (text_of (pp_message payload)) in
  let log_event := LogMessage "job_log"
                     (mkLogDict (pp_job_id payload) (text_of (pp_message payload))
                                (pp_level payload) (time_at w (S (ticks w)))) in
  let w' := snd (api_progress payload w) in
  fst (api_progress payload w) = Returned RespOk /\
  jobs (db w') = jobs (update_job job' (db w)) /\
  job_logs (db w') = job_logs (db w) ++ (if said then [log] else []) /\
  published w' = published w ++ JobMessage "job_progress" (job_to_dict job')
                                 :: (if said then [log_event] else []).
Proof.
  intros H. destruct w as [d m p c t]. cbn [db] in H.
  unfold api_progress, progress_job, bind, get_db, lift_outcome. cbn [db]. rewrite H.
  destruct (truthy (pp_message payload)); run_handler;
    rewrite ?app_nil_r, <- ?app_assoc; auto.
Qed.

Lemma api_complete_unknown (payload : CompletePayload) (w : World) :
  query_job (db w) (cp_job_id payload) = Returned None ->
  api_complete payload w = (Returned (RespError 404 "job not found"), w).
Proof.
  intros H. unfold api_complete, bind, get_db, lift_outcome. now rewrite H.
Qed.

Lemma api_complete_raised (payload : CompletePayload) (w : World) (e : exn) :
  query_job (db w) (cp_job_id payload) = Raised e ->
  api_complete payload w = (Raised e, w).
Proof.
  intros H. unfold api_complete, bind, get_db, lift_outcome. now rewrite H.
Qed.

Lemma api_complete_effect (payload : CompletePayload) (w : World) (job : Job) :
  query_job (db w) (cp_job_id payload) = Returned (Some job) ->
  let job' := complete_job payload (time_at w (ticks w)) job in
  let log := mkJobLog (next_id (map log_id (job_logs (db w)))) (cp_job_id payload)
                      (time_at w (S (ticks w))) "info"
                      (text_of (cp_message payload)) in
  let w' := snd (api_complete payload w) in
  fst (api_complete payload w) = Returned RespOk /\
  jobs (db w') = jobs (update_job job' (db w)) /\
  job_logs (db w') =
    job_logs (db w) ++ (if truthy (cp_message payload) then [log] else []) /\
  published w' = published w ++ [JobMessage "job_complete" (job_to_dict job')].
Proof.
  intros H. destruct w as [d m p c t]. cbn [db] in H.
  unfold api_complete, complete_job, bind, get_db, lift_outcome. cbn [db]. rewrite H.
  destruct (truthy (cp_message payload)); run_handler;
    rewrite ?app_nil_r; auto.
Qed.

Lemma find_job_ext (d d' : DB) (i : Z) :
  jobs d = jobs d' -> find_job d i = find_job d' i.
Proof. unfold find_job. now intros ->. Qed.

Lemma progress_job_id payload job : id (progress_job payload job) = id job.
Proof. unfold progress_job. now destruct (pp_progress payload). Qed.

(** The row of a known job after [api_progress] is the flushed object. *)
Lemma api_progress_row (payload : ProgressPayload) (w : World) (job : Job) :
  query_job (db w) (pp_job_id payload) = Returned (Some job) ->
  query_job (db (snd (api_progress payload w))) (pp_job_id payload) =
  Returned (Some (progress_job payload job)).
Proof.
  intros Hq. destruct (api_progress_effect payload w job Hq) as (_ & Hj & _).
  apply query_job_known in Hq. destruct Hq as [R H].
  apply query_job_known. split; [exact R|].
  rewrite (find_job_ext _ _ _ Hj).
  destruct (find_job_Some _ _ _ H) as [_ Hid].
  rewrite <- Hid, <- (progress_job_id payload job).
  apply refresh_reads_flushed with (j := job).
  now rewrite progress_job_id, Hid.
Qed.

(** The row of a known job after [api_complete] is the flushed object. *)
Lemma api_complete_row (payload : CompletePayload) (w : World) (job : Job) :
  query_job (db w) (cp_job_id payload) = Returned (Some job) ->
  query_job (db (snd (api_complete payload w))) (cp_job_id payload) =
  Returned (Some (complete_job payload (time_at w (ticks w)) job)).
Proof.
  intros Hq. destruct (api_complete_effect payload w job Hq) as (_ & Hj & _).
  apply query_job_known in Hq. destruct Hq as [R H].
  apply query_job_known. split; [exact R|].
  rewrite (find_job_ext _ _ _ Hj).
  destruct (find_job_Some _ _ _ H) as [_ Hid].
  set (job' := complete_job payload (time_at w (ticks w)) job).
  assert (Hid' : id job' = cp_job_id payload) by exact Hid.
  rewrite <- Hid'.
  apply refresh_reads_flushed with (j := job). now rewrite Hid'.
Qed.

(** Rows of other jobs are not touched by a flush. *)
Lemma update_job_other (j' : Job) (d : DB) (i : Z) :
  i <> id j' -> find_job (update_job j' d) i = find_job d i.
Proof.
  intros Hne. rewrite find_update_job.
  destruct (find_job d i) as [j|] eqn:E; [|reflexivity]. cbn.
  apply find_job_Some in E. destruct E as [_ E].
  destruct (Z.eqb_spec (id j) (id j')); [congruence|reflexivity].
Qed.

Lemma demo_world_job :
  query_job (db demo_world) 1 =
  Returned (Some (mkJob 1 "Deploy" "all" "ops" "running" 0%Q (time_at demo_world 0) None)).
Proof. reflexivity. Qed.

Lemma demo_world_row :
  find_job (db demo_world) 1 =
  Some (mkJob 1 "Deploy" "all" "ops" "running" 0%Q (time_at demo_world 0) None).
Proof. reflexivity. Qed.

(** ** Progress reports *)





(** ** Unknown job ids *)




(** ** Frame of a progress report *)

(** C8: a progress report on a known job leaves that job's [status],
    [end_time], [job_name], [scope], [triggered_by] and [start_time] as they
    were (and its [id]); a job whose status is terminal keeps it, so it is
    not set back to running.  Rows of other jobs are untouched. *)
Theorem api_progress_frame (w : World) (payload : ProgressPayload) (job : Job) :
  query_job (db w) (pp_job_id payload) = Returned (Some job) ->
  (exists job',
      query_job (db (snd (api_progress payload w))) (pp_job_id payload) = Returned (Some job')
      /\ id job' = id job
      /\ status job' = status job
      /\ end_time job' = end_time job
      /\ job_name job' = job_name job
      /\ scope job' = scope job
      /\ triggered_by job' = triggered_by job
      /\ start_time job' = start_time job
      /\ (terminal (status job) -> status job' <> "running")) /\
  (forall i, i <> pp_job_id payload ->
             query_job (db (snd (api_progress payload w))) i = query_job (db w) i).
Proof.
  intros Hjob. split.
  - exists (progress_job payload job). split; [now apply api_progress_row|].
    unfold progress_job. destruct (pp_progress payload); cbn;
      repeat split; try reflexivity;
      intros [E|E]; rewrite E; discriminate.
  - intros i Hi. destruct (api_progress_effect payload w job Hjob) as (_ & Hj & _).
    unfold query_job. destruct (bind_integer i) as [n|e] eqn:Eb; [|reflexivity].
    assert (n = i) as ->.
    { unfold bind_integer in Eb. destruct (in_int64 i); now inversion Eb. }
    f_equal. rewrite (find_job_ext _ _ _ Hj). apply update_job_other.
    rewrite progress_job_id. apply query_job_known in Hjob.
    destruct (find_job_Some _ _ _ (proj2 Hjob)) as [_ E]. congruence.
Qed.

Lemma api_progress_frame_witness :
  exists job',
    query_job (db (snd (api_progress demo_progress_150 demo_world))) 1 = Returned (Some job')
    /\ status job' = "running"
    /\ end_time job' = None
    /\ job_name job' = "Deploy"
    /\ start_time job' = time_at demo_world 0.
Proof.
  destruct (proj1 (api_progress_frame demo_world demo_progress_150 _ demo_world_job))
    as (job' & Hq & _ & Hs & He & Hn & _ & _ & Ht & _).
  exists job'. repeat split; assumption.
Defined.

(** ** Empty messages *)

(** C10: a progress report on a known job whose message is the empty
    string is handled exactly as the same report without a message: the
    answer is ok, no log row is written, and only the [job_progress] event
    is published, no [job_log] event. *)
Theorem api_progress_empty_message
        (w : World) (job_id : Z) (p : option Q) (lvl : option string) (job : Job) :
  query_job (db w) job_id = Returned (Some job) ->
  let payload := mkProgressPayload job_id p (Some EmptyString) lvl in
  let w' := snd (api_progress payload w) in
  api_progress payload w = api_progress (mkProgressPayload job_id p None lvl) w /\
  fst (api_progress payload w) = Returned RespOk /\
  job_logs (db w') = job_logs (db w) /\
  published w' =
    published w ++ [JobMessage "job_progress" (job_to_dict (progress_job payload job))].
Proof.
  intros Hjob payload w'. split; [reflexivity|].
  destruct (api_progress_effect payload w job Hjob) as (Hr & _ & Hl & Hp).
  cbn in Hl, Hp. rewrite app_nil_r in Hl. auto.
Qed.

Lemma api_progress_empty_message_witness :
  let payload := mkProgressPayload 1 (Some (40 # 1)) (Some EmptyString) (Some "info") in
  fst (api_progress payload demo_world) = Returned RespOk /\
  job_logs (db (snd (api_progress payload demo_world))) = job_logs (db demo_world).
Proof.
  intros payload.
  destruct (api_progress_empty_message demo_world 1 (Some (40 # 1)) (Some "info") _
              demo_world_job) as (_ & Hr & Hl & _).
  split; assumption.
Defined.

(** ** Completion reports *)

Lemma truthy_Some (m : string) : m <> EmptyString -> truthy (Some m) = true.
Proof.
  intros H. cbn. destruct (String.eqb_spec m EmptyString); [contradiction|reflexivity].
Qed.

(** C3, as the code has it: a completion report on a known job is answered
    ok; afterwards the job's [end_time] is set (to the time of the report),
    its [progress] is 100 and its [status] is the requested one, whatever
    they were before.  A non-empty message appends exactly one log row (level
    info, for this job, with that text); an absent or empty message appends
    none. *)
Theorem api_complete_forces_terminal_fields
        (w : World) (payload : CompletePayload) (job : Job) :
  query_job (db w) (cp_job_id payload) = Returned (Some job) ->
  let w' := snd (api_complete payload w) in
  fst (api_complete payload w) = Returned RespOk /\
  (exists job',
      query_job (db w') (cp_job_id payload) = Returned (Some job')
      /\ end_time job' = Some (time_at w (ticks w))
      /\ progress job' = 100%Q
      /\ status job' = cp_status payload) /\
  (forall m, cp_message payload = Some m -> m <> EmptyString ->
             exists log,
               job_logs (db w') = job_logs (db w) ++ [log]
               /\ log_job_id log = cp_job_id payload
               /\ message log = m
               /\ level log = "info") /\
  (cp_message payload = None \/ cp_message payload = Some EmptyString ->
   job_logs (db w') = job_logs (db w)).
Proof.
  intros Hjob w'.
  destruct (api_complete_effect payload w job Hjob) as (Hr & _ & Hl & _).
  fold w' in Hl. split; [exact Hr|]. split; [|split].
  - exists (complete_job payload (time_at w (ticks w)) job).
    split; [now apply api_complete_row|]. cbn. auto.
  - intros m Hm Hne. rewrite Hm, (truthy_Some m Hne) in Hl.
    eexists. split; [exact Hl|]. cbn. auto.
  - intros [Hm|Hm]; rewrite Hm in Hl; cbn in Hl; now rewrite app_nil_r in Hl.
Qed.

Lemma api_complete_forces_terminal_fields_witness :
  fst (api_complete demo_complete demo_world) = Returned RespOk /\
  exists job',
    query_job (db (snd (api_complete demo_complete demo_world))) 1 = Returned (Some job')
    /\ end_time job' = Some (time_at demo_world (ticks demo_world))
    /\ progress job' = 100%Q
    /\ status job' = "success".
Proof.
  destruct (api_complete_forces_terminal_fields demo_world demo_complete _
              demo_world_job) as (Hr & Hj & _).
  split; assumption.
Defined.

(** C3, as stated, fails on its last part: a completion report that
    supplies the empty string as message appends no log row. *)
Lemma api_complete_empty_message_appends_nothing :
  ~ (forall (w : World) (payload : CompletePayload) (job : Job) (m : string),
        query_job (db w) (cp_job_id payload) = Returned (Some job) ->
        cp_message payload = Some m ->
        List.length (job_logs (db (snd (api_complete payload w)))) =
        S (List.length (job_logs (db w)))).
Proof.
  intros H.
  specialize (H demo_world (mkCompletePayload 1 "success" (Some EmptyString)) _
                EmptyString demo_world_job eq_refl).
  vm_compute in H. discriminate H.
Qed.

(** ** Runs of the service *)

Lemma run_app (rs rs' : list Report) (w : World) :
  run (rs ++ rs') w = run rs' (run rs w).
Proof. revert w. induction rs as [|r rs IH]; intros w; cbn; [reflexivity|apply IH]. Qed.

Lemma run_invariant (P : World -> Prop) (R : Report -> Prop) :
  (forall w r, R r -> P w -> P (snd (handle r w))) ->
  forall rs w, Forall R rs -> P w -> P (run rs w).
Proof.
  intros Hstep rs. induction rs as [|r rs IH]; intros w HR HP; cbn; [exact HP|].
  inversion HR; subst. apply IH; [assumption|]. now apply Hstep.
Qed.

Lemma update_job_ids (j' : Job) (d : DB) :
  map id (jobs (update_job j' d)) = map id (jobs d).
Proof.
  unfold update_job. cbn. rewrite map_map. apply map_ext.
  intros j. destruct (Z.eqb_spec (id j) (id j')); congruence.
Qed.

Lemma update_job_In (j' : Job) (d : DB) (j : Job) :
  In j (jobs (update_job j' d)) -> j = j' \/ In j (jobs d).
Proof.
  unfold update_job. cbn. rewrite in_map_iff. intros (j0 & E & Hin).
  destruct (id j0 =? id j'); subst; auto.
Qed.

(** The tables after any report: what was written, case by case. *)
Lemma handle_tables (r : Report) (w : World) :
  let w' := snd (handle r w) in
  match r with
  | Start p =>
      exists new_job log,
        jobs (db w') = jobs (db w) ++ [new_job]
        /\ job_logs (db w') = job_logs (db w) ++ [log]
        /\ id new_job = next_id (map id (jobs (db w)))
        /\ status new_job = "running"
        /\ log_job_id log = id new_job
  | Progress p =>
      w' = w \/
      exists job logs,
        find_job (db w) (pp_job_id p) = Some job
        /\ jobs (db w') = jobs (update_job (progress_job p job) (db w))
        /\ job_logs (db w') = job_logs (db w) ++ logs
        /\ Forall (fun l => log_job_id l = id job) logs
  | Complete p =>
      w' = w \/
      exists job logs now,
        find_job (db w) (cp_job_id p) = Some job
        /\ jobs (db w') = jobs (update_job (complete_job p now job) (db w))
        /\ job_logs (db w') = job_logs (db w) ++ logs
        /\ Forall (fun l => log_job_id l = id job) logs
  end.
Proof.
  destruct r as [p|p|p]; cbn [handle].
  - destruct (api_start_effect p w) as (_ & Hj & Hl & _).
    do 2 eexists. split; [exact Hj|]. split; [exact Hl|]. cbn. auto.
  - destruct (query_job (db w) (pp_job_id p)) as [[job|]|e] eqn:E.
    + right. destruct (api_progress_effect p w job E) as (_ & Hj & Hl & _).
      apply query_job_known in E. destruct E as [_ E].
      destruct (find_job_Some _ _ _ E) as [_ Hid].
      do 2 eexists. split; [exact E|]. split; [exact Hj|]. split; [exact Hl|].
      destruct (truthy (pp_message p)); repeat constructor. cbn. congruence.
    + left. now rewrite api_progress_unknown.
    + left. now rewrite (api_progress_raised p w e).
  - destruct (query_job (db w) (cp_job_id p)) as [[job|]|e] eqn:E.
    + right. destruct (api_complete_effect p w job E) as (_ & Hj & Hl & _).
      apply query_job_known in E. destruct E as [_ E].
      destruct (find_job_Some _ _ _ E) as [_ Hid].
      do 3 eexists. split; [exact E|]. split; [exact Hj|]. split; [exact Hl|].
      destruct (truthy (cp_message p)); repeat constructor. cbn. congruence.
    + left. now rewrite api_complete_unknown.
    + left. now rewrite (api_complete_raised p w e).
Qed.

Lemma handle_keeps_log_references (w : World) (r : Report) :
  logs_reference_jobs (db w) -> logs_reference_jobs (db (snd (handle r w))).
Proof.
  intros Hinv. pose proof (handle_tables r w) as H. cbn zeta in H.
  unfold logs_reference_jobs in *.
  destruct r as [p|p|p].
  - destruct H as (nj & lg & Hj & Hl & _ & _ & Hr). rewrite Hj, Hl.
    intros l Hin. rewrite map_app, in_app_iff. apply in_app_or in Hin.
    destruct Hin as [Hin|[<-|[]]]; [left; auto|right; cbn; auto].
  - destruct H as [->|(job & logs & Hq & Hj & Hl & Hf)]; [exact Hinv|].
    rewrite Hj, Hl, update_job_ids. intros l Hin. apply in_app_or in Hin.
    destruct Hin as [Hin|Hin]; [auto|].
    rewrite Forall_forall in Hf. rewrite (Hf l Hin).
    apply in_map. now apply find_job_Some in Hq.
  - destruct H as [->|(job & logs & now & Hq & Hj & Hl & Hf)]; [exact Hinv|].
    rewrite Hj, Hl, update_job_ids. intros l Hin. apply in_app_or in Hin.
    destruct Hin as [Hin|Hin]; [auto|].
    rewrite Forall_forall in Hf. rewrite (Hf l Hin).
    apply in_map. now apply find_job_Some in Hq.
Qed.

(** In every world reached from start-up, log rows reference known jobs. *)
Lemma reachable_log_references (rs : list Report) (clk : nat -> N) :
  logs_reference_jobs (db (run rs (initial clk))).
Proof.
  apply (run_invariant (fun w => logs_reference_jobs (db w)) (fun _ => True)).
  - intros w r _. apply handle_keeps_log_references.
  - apply Forall_forall. trivial.
  - intros r [].
Qed.

(** ** Start reports *)

Lemma filter_none {A} (f : A -> bool) (l : list A) :
  (forall x, In x l -> f x = false) -> filter f l = [].
Proof.
  induction l as [|x l IH]; intros H; cbn; [reflexivity|].
  rewrite (H x (or_introl eq_refl)). apply IH. intros y Hy. apply H. now right.
Qed.

(** C5: a start report always succeeds and answers the id of the row it
    inserted, an id that no job of the table has; the new job has status
    running, progress 0, the time of the report as [start_time] and no
    [end_time]; one log row, "Job started", is inserted, and it is the only
    log row of the new job. *)
Theorem api_start_creates_running_job (w : World) (payload : StartPayload) :
  logs_reference_jobs (db w) ->
  let new_id := next_id (map id (jobs (db w))) in
  let new_job := mkJob new_id (sp_job_name payload) (sp_scope payload)
                       (sp_triggered_by payload) "running" 0%Q
                       (time_at w (ticks w)) None in
  let w' := snd (api_start payload w) in
  fst (api_start payload w) = Returned (RespJobId new_id) /\
  (forall j, In j (jobs (db w)) -> id j <> new_id) /\
  jobs (db w') = jobs (db w) ++ [new_job] /\
  find_job (db w') new_id = Some new_job /\
  (exists log,
      job_logs (db w') = job_logs (db w) ++ [log]
      /\ message log = "Job started"
      /\ filter (fun r => log_job_id r =? new_id) (job_logs (db w')) = [log]).
Proof.
  intros Hinv new_id new_job w'.
  destruct (api_start_effect payload w) as (Hr & Hj & Hl & _).
  fold new_id new_job w' in Hr, Hj, Hl.
  assert (Hfresh : forall j, In j (jobs (db w)) -> id j <> new_id).
  { intros j Hin. apply (in_map id) in Hin. apply next_id_fresh in Hin.
    unfold new_id. lia. }
  split; [exact Hr|]. split; [exact Hfresh|]. split; [exact Hj|]. split.
  - unfold find_job. rewrite Hj, find_app_None.
    + cbn. now rewrite Z.eqb_refl.
    + apply (find_job_None (db w)). exact Hfresh.
  - eexists. split; [exact Hl|]. split; [reflexivity|].
    rewrite Hl, filter_app, filter_none.
    + cbn. now rewrite Z.eqb_refl.
    + intros r Hin. apply Hinv, next_id_fresh in Hin.
      apply Z.eqb_neq. unfold new_id. lia.
Qed.

Lemma api_start_creates_running_job_witness :
  fst (api_start demo_start demo_world) = Returned (RespJobId 2) /\
  find_job (db (snd (api_start demo_start demo_world))) 2 =
    Some (mkJob 2 "Deploy" "all" "ops" "running" 0%Q
                (time_at demo_world (ticks demo_world)) None).
Proof.
  destruct (api_start_creates_running_job demo_world demo_start
              (reachable_log_references [Start demo_start] demo_clock))
    as (Hr & _ & _ & Hq & _).
  split; [exact Hr|exact Hq].
Defined.

(** ** Statuses along a run *)

Lemma handle_keeps_valid_status (w : World) (r : Report) :
  terminal_report r ->
  (forall j, In j (jobs (db w)) -> valid_status (status j)) ->
  forall j, In j (jobs (db (snd (handle r w)))) -> valid_status (status j).
Proof.
  intros Hr Hinv. pose proof (handle_tables r w) as H. cbn zeta in H.
  destruct r as [p|p|p].
  - destruct H as (nj & lg & Hj & _ & _ & Hs & _). rewrite Hj.
    intros j Hin. apply in_app_or in Hin.
    destruct Hin as [Hin|[<-|[]]]; [auto|]. left. exact Hs.
  - destruct H as [->|(job & logs & Hq & Hj & _)]; [exact Hinv|].
    rewrite Hj. intros j Hin. apply update_job_In in Hin.
    destruct Hin as [->|Hin]; [|auto].
    apply find_job_Some in Hq. destruct Hq as [Hq _]. apply Hinv in Hq.
    unfold progress_job. now destruct (pp_progress p).
  - destruct H as [->|(job & logs & now & Hq & Hj & _)]; [exact Hinv|].
    rewrite Hj. intros j Hin. apply update_job_In in Hin.
    destruct Hin as [->|Hin]; [|auto]. right. exact Hr.
Qed.

Lemma handle_keeps_terminal (w : World) (r : Report) (i : Z) (j : Job) :
  terminal_report r ->
  find_job (db w) i = Some j -> terminal (status j) ->
  exists j', find_job (db (snd (handle r w))) i = Some j' /\ terminal (status j').
Proof.
  intros Hr Hq Ht. pose proof (handle_tables r w) as H. cbn zeta in H.
  destruct r as [p|p|p].
  - destruct H as (nj & lg & Hj & _). exists j. split; [|exact Ht].
    unfold find_job. rewrite Hj. now apply find_app_Some.
  - destruct H as [->|(job & logs & Hq' & Hj & _)]; [eauto|].
    rewrite (find_job_ext _ _ _ Hj), find_update_job, Hq. cbn.
    rewrite progress_job_id.
    destruct (Z.eqb_spec (id j) (id job)) as [E|_]; [|eauto].
    assert (job = j) as ->.
    { destruct (find_job_Some _ _ _ Hq) as [_ Hi].
      destruct (find_job_Some _ _ _ Hq') as [_ Hi'].
      assert (Hii : i = pp_job_id p) by congruence.
      rewrite Hii in Hq. congruence. }
    eexists. split; [reflexivity|].
    unfold progress_job. now destruct (pp_progress p).
  - destruct H as [->|(job & logs & now & Hq' & Hj & _)]; [eauto|].
    rewrite (find_job_ext _ _ _ Hj), find_update_job, Hq. cbn.
    destruct (Z.eqb_spec (id j) (id job)) as [E|_]; [|eauto].
    eexists. split; [reflexivity|]. exact Hr.
Qed.

(** C4, as the code has it: a job is created with status running, and a
    progress report never changes a status; a completion report stores the
    status it carries, whatever string that is.  So along every run whose
    completion reports carry one of success and failed (as the reporter's
    do), every job's status is one of running, success and failed, and a job
    whose status is terminal keeps a terminal status at every later step:
    it is not set back to running. *)
Theorem status_valid_under_terminal_completions (rs : list Report) (clk : nat -> N) :
  Forall terminal_report rs ->
  (forall j, In j (jobs (db (run rs (initial clk)))) -> valid_status (status j)) /\
  (forall pre p post,
      rs = pre ++ Start p :: post ->
      exists j,
        find_job (db (run (pre ++ [Start p]) (initial clk)))
                  (next_id (map id (jobs (db (run pre (initial clk)))))) = Some j
        /\ status j = "running") /\
  (forall pre r post i j,
      rs = pre ++ r :: post ->
      find_job (db (run pre (initial clk))) i = Some j ->
      terminal (status j) ->
      exists j',
        find_job (db (run (pre ++ [r]) (initial clk))) i = Some j'
        /\ terminal (status j') /\ status j' <> "running").
Proof.
  intros Hrs. split; [|split].
  - apply (run_invariant
             (fun w => forall j, In j (jobs (db w)) -> valid_status (status j))
             terminal_report); [|exact Hrs|intros j []].
    intros w r. apply handle_keeps_valid_status.
  - intros pre p post _. rewrite run_app. cbn [run handle].
    destruct (api_start_effect p (run pre (initial clk))) as (_ & Hj & _).
    eexists. split.
    + unfold find_job. rewrite Hj, find_app_None.
      * cbn. rewrite Z.eqb_refl. reflexivity.
      * apply (find_job_None (db (run pre (initial clk)))).
        intros j Hin. apply (in_map id) in Hin. apply next_id_fresh in Hin. lia.
    + reflexivity.
  - intros pre r post i j -> Hq Ht. rewrite run_app. cbn [run].
    rewrite Forall_app in Hrs. destruct Hrs as [_ Hrs]. inversion Hrs; subst.
    destruct (handle_keeps_terminal _ r i j H1 Hq Ht) as (j' & Hq' & Ht').
    exists j'. split; [exact Hq'|]. split; [exact Ht'|].
    destruct Ht' as [E|E]; rewrite E; discriminate.
Qed.

Lemma status_valid_under_terminal_completions_witness :
  Forall terminal_report demo_run /\
  forall j, In j (jobs (db (run demo_run (initial demo_clock)))) ->
            valid_status (status j).
Proof.
  assert (H : Forall terminal_report demo_run).
  { repeat constructor. }
  split; [exact H|].
  exact (proj1 (status_valid_under_terminal_completions demo_run demo_clock H)).
Defined.

(** C4, as stated, fails: a completion report may carry any string as
    status.  After start and completion with success, a second completion
    report with status running sets job 1 back to running; and one with
    status paused leaves it outside the three statuses. *)
Lemma api_complete_stores_any_status :
  ~ (forall (rs : list Report) (clk : nat -> N) (j : Job),
        In j (jobs (db (run rs (initial clk)))) -> valid_status (status j)) /\
  ~ (forall (w : World) (r : Report) (i : Z) (j j' : Job),
        find_job (db w) i = Some j -> terminal (status j) ->
        find_job (db (snd (handle r w))) i = Some j' ->
        status j' <> "running").
Proof.
  split; intros H.
  - specialize (H [Start demo_start; Complete (mkCompletePayload 1 "paused" None)]
                  demo_clock _ (or_introl eq_refl)).
    vm_compute in H. destruct H as [H|[H|H]]; discriminate H.
  - specialize (H (run [Start demo_start; Complete demo_complete] (initial demo_clock))
                  (Complete (mkCompletePayload 1 "running" None)) 1 _ _
                  eq_refl (or_introl eq_refl) eq_refl).
    apply H. reflexivity.
Qed.

(** ** ORDER BY *)

Section OrderBy.
Context {A : Type}.
Variable leb : A -> A -> bool.
Hypothesis leb_total : forall a b, leb a b = false -> leb b a = true.
Hypothesis leb_trans : forall a b c, leb a b = true -> leb b c = true -> leb a c = true.

Lemma insert_by_Permutation (x : A) (l : list A) :
  Permutation (insert_by leb x l) (x :: l).
Proof.
  induction l as [|y l IH]; cbn; [reflexivity|].
  destruct (leb x y); [reflexivity|].
  rewrite IH. apply perm_swap.
Qed.

Lemma order_by_Permutation (l : list A) : Permutation (order_by leb l) l.
Proof.
  induction l as [|x l IH]; cbn; [constructor|].
  rewrite insert_by_Permutation. now constructor.
Qed.

Lemma insert_by_sorted (x : A) (l : list A) :
  StronglySorted (le_of leb) l -> StronglySorted (le_of leb) (insert_by leb x l).
Proof.
  induction 1 as [|y l Hs IH Hy]; cbn.
  - repeat constructor.
  - destruct (leb x y) eqn:E.
    + constructor; [now constructor|]. constructor; [exact E|].
      rewrite Forall_forall in *. intros z Hz.
      apply (leb_trans x y z); [exact E|]. now apply Hy.
    + constructor; [exact IH|].
      rewrite Forall_forall in *. intros z Hz.
      apply (Permutation_in _ (insert_by_Permutation x l)) in Hz.
      destruct Hz as [<-|Hz]; [now apply leb_total|]. now apply Hy.
Qed.

Lemma order_by_sorted (l : list A) : StronglySorted (le_of leb) (order_by leb l).
Proof.
  induction l as [|x l IH]; cbn; [constructor|]. now apply insert_by_sorted.
Qed.
End OrderBy.

Section SortedSlices.
Context {A : Type}.
Variable R : A -> A -> Prop.



Lemma StronglySorted_map {B : Type} (f : A -> B) (R' : B -> B -> Prop) (l : list A) :
  (forall a b, R a b -> R' (f a) (f b)) ->
  StronglySorted R l -> StronglySorted R' (map f l).
Proof.
  intros Hf. induction 1 as [|x l Hs IH Hx]; cbn; constructor; [exact IH|].
  rewrite Forall_forall in *. intros y Hy. apply in_map_iff in Hy.
  destruct Hy as (a & <- & Ha). auto.
Qed.
End SortedSlices.

Lemma StronglySorted_impl {A} (R R' : A -> A -> Prop) (l : list A) :
  (forall a b, R a b -> R' a b) -> StronglySorted R l -> StronglySorted R' l.
Proof.
  intros HR Hs. rewrite <- (map_id l).
  now apply (StronglySorted_map R (fun a => a) R').
Qed.


Lemma start_time_desc_sorted (l : list Job) :
  StronglySorted (fun a b => (start_time b <= start_time a)%N)
                 (order_by start_time_desc l).
Proof.
  apply StronglySorted_impl with (R := le_of start_time_desc).
  - intros a b H. now apply N.leb_le.
  - apply order_by_sorted; unfold start_time_desc.
    + intros a b H. apply N.leb_gt in H. apply N.leb_le. lia.
    + intros a b c H1 H2. apply N.leb_le in H1, H2. apply N.leb_le. lia.
Qed.

(** ** Query API *)

Lemma bind_integers_in_range (params : list Z) :
  Forall (fun n => in_int64 n = true) params -> bind_integers params = Returned tt.
Proof.
  induction 1 as [|n l Hn Hl IH]; cbn; [reflexivity|].
  unfold bind_integer. now rewrite Hn.
Qed.


Lemma in_int64_literal (n : Z) : in_int64 n = true <-> - 2 ^ 63 <= n < 2 ^ 63.
Proof. rewrite in_int64_iff. unfold int64_min, int64_max. lia. Qed.

Lemma job_logs_parameters_in_range (job_id limit offset : Z) :
  - 2 ^ 63 <= job_id < 2 ^ 63 -> limit < 2 ^ 63 -> offset < 2 ^ 63 ->
  Forall (fun n => in_int64 n = true) (job_logs_parameters job_id limit offset).
Proof.
  intros Hj Hl Ho. unfold job_logs_parameters.
  constructor; [now apply in_int64_literal|]. apply Forall_app. split.
  - rewrite Z.gtb_ltb. destruct (Z.eqb_spec limit 0); cbn; [constructor|].
    destruct (Z.ltb_spec 0 limit); [|constructor].
    constructor; [|constructor]. apply in_int64_literal. lia.
  - rewrite Z.gtb_ltb. destruct (Z.eqb_spec offset 0); cbn; [constructor|].
    destruct (Z.ltb_spec 0 offset); [|constructor].
    constructor; [|constructor]. apply in_int64_literal. lia.
Qed.

(** The answer of [api_job_logs] when its parameters can be bound. *)
Lemma api_job_logs_eq (w : World) (job_id limit offset : Z) :
  - 2 ^ 63 <= job_id < 2 ^ 63 -> limit < 2 ^ 63 -> offset < 2 ^ 63 ->
  let sorted := order_by ts_asc
                  (filter (fun r => log_job_id r =? job_id) (job_logs (db w))) in
  let rest := skipn (Z.to_nat offset) sorted in
  api_job_logs job_id limit offset w =
  (Returned (RespLogs (map log_row (if limit <=? 0 then rest
                                    else firstn (Z.to_nat limit) rest))), w).
Proof.
  intros Hj Hl Ho sorted rest.
  unfold api_job_logs, bind, get_db, ret, lift_outcome. fold sorted.
  rewrite (bind_integers_in_range _ (job_logs_parameters_in_range _ _ _ Hj Hl Ho)).
  replace (if negb (offset =? 0) && (offset >? 0)
           then skipn (Z.to_nat offset) sorted else sorted) with rest.
  - rewrite Z.gtb_ltb.
    destruct (Z.eqb_spec limit 0) as [->|Hne]; [reflexivity|].
    destruct (Z.ltb_spec 0 limit), (Z.leb_spec limit 0); cbn;
      try reflexivity; lia.
  - unfold rest. destruct (Z.eqb_spec offset 0) as [->|Hne]; [reflexivity|].
    rewrite Z.gtb_ltb. destruct (Z.ltb_spec 0 offset); [reflexivity|].
    cbn. replace (Z.to_nat offset) with 0%nat by lia. reflexivity.
Qed.





(** No clock reading is close enough to [datetime.min] for a cutoff to
    overflow. *)
Lemma range_cutoff_total (range : string) (w : World) (n : nat) :
  range_cutoff range (time_at w n) = Returned (spec_cutoff range (time_at w n)).
Proof.
  assert (H24 : (timedelta_hours 24 <= unix_epoch)%N)
    by (apply N.leb_le; vm_compute; reflexivity).
  assert (H7 : (timedelta_days 7 <= unix_epoch)%N)
    by (apply N.leb_le; vm_compute; reflexivity).
  assert (H30 : (timedelta_days 30 <= unix_epoch)%N)
    by (apply N.leb_le; vm_compute; reflexivity).
  unfold range_cutoff, spec_cutoff, datetime_sub, time_at.
  generalize dependent (timedelta_hours 24).
  generalize dependent (timedelta_days 7).
  generalize dependent (timedelta_days 30).
  generalize dependent unix_epoch.
  intros e d30 H30 d7 H7 d24 H24.
  repeat match goal with
         | |- context [(?a <=? ?b)%N] => destruct (N.leb_spec a b); [|lia]
         end.
  repeat match goal with
         | |- context [(?a =? ?b)%string] => destruct (a =? b)%string
         end; reflexivity.
Qed.

Lemma filter_since_datetime_min (l : list Job) :
  filter (fun j => (datetime_min <=? start_time j)%N) l = l.
Proof.
  induction l as [|j l IH]; cbn; [reflexivity|].
  rewrite IH. unfold datetime_min. now destruct (start_time j).
Qed.

(** C7: for every range, [api_jobs] answers exactly the jobs whose
    [start_time] is at or after the cutoff of the range (24 hours, 7 days or
    30 days before the time of the call), in descending order of
    [start_time]; for every other range value the cutoff is [datetime.min]
    and the answer holds all jobs.  Each job is answered with its own id,
    name, scope, trigger, status, progress and times.  The tables are not
    changed. *)
Theorem api_jobs_since_cutoff (w : World) (range : string) :
  let cutoff := spec_cutoff range (time_at w (ticks w)) in
  exists rows,
    fst (api_jobs range w) =
      Returned (RespJobs
                  (map (fun j => mkJobDict (id j) (job_name j) (scope j)
                                           (triggered_by j) (status j)
                                           (if Qeq_bool (progress j) 0
                                            then 0%Q else progress j)
                                           (Some (start_time j)) (end_time j))
                       rows)) /\
    db (snd (api_jobs range w)) = db w /\
    Permutation rows (filter (fun j => (cutoff <=? start_time j)%N) (jobs (db w))) /\
    (forall j, In j rows <-> In j (jobs (db w)) /\ (cutoff <= start_time j)%N) /\
    StronglySorted (fun a b => (start_time b <= start_time a)%N) rows /\
    (range <> "24h" -> range <> "7d" -> range <> "30d" ->
     cutoff = datetime_min /\ Permutation rows (jobs (db w))).
Proof.
  intros cutoff.
  set (kept := filter (fun j => (cutoff <=? start_time j)%N) (jobs (db w))).
  exists (order_by start_time_desc kept).
  assert (Hperm : Permutation (order_by start_time_desc kept) kept)
    by apply order_by_Permutation.
  split; [|split; [|split; [|split; [|split]]]].
  - unfold api_jobs, bind, utcnow, lift_outcome, get_db, ret. cbn [fst snd db].
    rewrite (range_cutoff_total range w (ticks w)). reflexivity.
  - unfold api_jobs, bind, utcnow, lift_outcome, get_db, ret. cbn [fst snd db].
    rewrite (range_cutoff_total range w (ticks w)). reflexivity.
  - exact Hperm.
  - intros j. split.
    + intros Hin. apply (Permutation_in _ Hperm) in Hin.
      apply filter_In in Hin. now rewrite N.leb_le in Hin.
    + intros [Hin Hle]. apply (Permutation_in _ (Permutation_sym Hperm)).
      apply filter_In. now rewrite N.leb_le.
  - apply start_time_desc_sorted.
  - intros H24 H7 H30.
    assert (Hc : cutoff = datetime_min).
    { unfold cutoff, spec_cutoff.
      destruct (String.eqb_spec range "24h"); [contradiction|].
      destruct (String.eqb_spec range "7d"); [contradiction|].
      destruct (String.eqb_spec range "30d"); [contradiction|reflexivity]. }
    split; [exact Hc|]. rewrite Hperm. unfold kept. rewrite Hc.
    now rewrite filter_since_datetime_min.
Qed.

(** ** Broadcast *)

(** Without [return_exceptions] the first failed send would reach the
    publisher: the flag is what isolates the failures. *)
Lemma broadcast_without_flag_propagates (message : Message) (w : World) (ws : WebSocket) :
  In ws (active (manager w)) -> ws_open ws = false ->
  fst (broadcast_with false message w) = Raised SendError.
Proof.
  destruct w as [d [a] p c t]. cbn [manager active]. intros Hin Hclosed.
  unfold broadcast_with, bind, record_published. cbn [manager active].
  destruct a as [|ws0 a]; [destruct Hin|].
  set (l := ws0 :: a) in *.
  assert (Hfind : exists o, find is_raised (map fst (map (send_text message) l)) = Some o
                            /\ o = Raised SendError).
  { clearbody l. induction l as [|x l IH]; [destruct Hin|]. cbn [map find].
    destruct (send_text message x) as [o x'] eqn:Es.
    unfold send_text in Es. destruct (ws_open x) eqn:Ex; inversion Es; subst; cbn.
    - destruct Hin as [->|Hin]; [congruence|]. now apply IH.
    - eauto. }
  destruct Hfind as (o & Hf & ->). unfold gather. now rewrite Hf.
Qed.

(** C9: [broadcast] returns normally whatever the sends do; a send is
    attempted on every registered observer, each channel ending as its own
    send leaves it; so every open observer receives the event even when
    sends to other observers fail, and no failure reaches the publisher. *)
Theorem broadcast_isolates_failures (message : Message) (w : World) :
  let w' := snd (broadcast message w) in
  fst (broadcast message w) = Returned tt /\
  active (manager w') =
    map (fun ws => snd (send_text message ws)) (active (manager w)) /\
  List.length (active (manager w')) = List.length (active (manager w)) /\
  (forall ws, In ws (active (manager w)) -> ws_open ws = true ->
              In (mkWebSocket (ws_id ws) true (ws_inbox ws ++ [message]))
                 (active (manager w'))) /\
  (forall ws, In ws (active (manager w)) -> ws_open ws = false ->
              fst (send_text message ws) = Raised SendError
              /\ In ws (active (manager w'))) /\
  db w' = db w.
Proof.
  intros w'. unfold w'. rewrite broadcast_eq. cbn [fst snd manager active db].
  split; [reflexivity|]. split; [reflexivity|]. split; [apply length_map|].
  split; [|split; [|reflexivity]].
  - intros ws Hin Hopen. apply in_map_iff. exists ws. split; [|exact Hin].
    unfold send_text. now rewrite Hopen.
  - intros ws Hin Hclosed. unfold send_text. rewrite Hclosed. split; [reflexivity|].
    apply in_map_iff. exists ws. split; [|exact Hin].
    unfold send_text. now rewrite Hclosed.
Qed.

Example broadcast_with_dead_observer :
  fst (broadcast demo_event demo_hub) = Returned tt /\
  active (manager (snd (broadcast demo_event demo_hub))) =
    [mkWebSocket 1 true [demo_event]; mkWebSocket 2 false [];
     mkWebSocket 3 true [demo_event]] /\
  fst (broadcast_with false demo_event demo_hub) = Raised SendError.
Proof. repeat split; reflexivity. Qed.

(** * Further properties of the service *)

(** ** The whole world after each ingestion handler *)

Lemma send_text_deliver (m : Message) (ws : WebSocket) :
  snd (send_text m ws) = deliver [m] ws.
Proof. unfold send_text, deliver. now destruct (ws_open ws). Qed.

Lemma deliver_nil (ws : WebSocket) : deliver [] ws = ws.
Proof.
  unfold deliver. destruct ws as [i o b]. cbn. destruct o; [|reflexivity].
  now rewrite app_nil_r.
Qed.

Lemma deliver_app (evs evs' : list Message) (ws : WebSocket) :
  deliver evs' (deliver evs ws) = deliver (evs ++ evs') ws.
Proof.
  unfold deliver. destruct (ws_open ws) eqn:E; cbn; [|now rewrite E].
  now rewrite app_assoc.
Qed.

Lemma map_deliver_nil (l : list WebSocket) : map (deliver []) l = l.
Proof. rewrite <- (map_id l) at 2. apply map_ext, deliver_nil. Qed.

Lemma map_deliver_app (evs evs' : list Message) (l : list WebSocket) :
  map (deliver evs') (map (deliver evs) l) = map (deliver (evs ++ evs')) l.
Proof. rewrite map_map. apply map_ext. intros ws. apply deliver_app. Qed.

Lemma broadcast_deliver (m : Message) (w : World) :
  broadcast m w =
  (Returned tt,
   mkWorld (db w) (mkConnectionManager (map (deliver [m]) (active (manager w))))
           (published w ++ [m]) (clock w) (ticks w)).
Proof.
  rewrite broadcast_eq. do 3 f_equal. apply map_ext, send_text_deliver.
Qed.

Ltac run_handler_deliver :=
  repeat (progress
            (try unfold insert_job; try unfold insert_log; try unfold bind;
             try unfold get_db; try unfold put_db; try unfold utcnow;
             try unfold ret; try unfold time_at;
             cbn [when fst snd db manager published clock ticks jobs job_logs
                  update_job active];
             try rewrite broadcast_deliver)).

Lemma api_start_world (payload : StartPayload) (w : World) :
  let new_job := mkJob (next_id (map id (jobs (db w))))
                       (sp_job_name payload) (sp_scope payload)
                       (sp_triggered_by payload) "running" 0%Q
                       (time_at w (ticks w)) None in
  let log := mkJobLog (next_id (map log_id (job_logs (db w)))) (id new_job)
                      (time_at w (S (ticks w))) "info" "Job started" in
  let ev := JobMessage "job_start" (job_to_dict new_job) in
  api_start payload w =
  (Returned (RespJobId (id new_job)),
   mkWorld (mkDB (jobs (db w) ++ [new_job]) (job_logs (db w) ++ [log]))
           (mkConnectionManager (map (deliver [ev]) (active (manager w))))
           (published w ++ [ev]) (clock w) (S (S (ticks w)))).
Proof.
  destruct w as [d m p c t]. unfold api_start. run_handler_deliver. reflexivity.
Qed.

Lemma api_progress_world (payload : ProgressPayload) (w : World) (job : Job) :
  query_job (db w) (pp_job_id payload) = Returned (Some job) ->
  let job' := progress_job payload job in
  let said := truthy (pp_message payload) in
  let log := mkJobLog (next_id (map log_id (job_logs (db w)))) (pp_job_id payload)
                      (time_at w (ticks w)) (str_or (pp_level payload) "info")
                      (text_of (pp_message payload)) in
  let log_event := LogMessage "job_log"
                     (mkLogDict (pp_job_id payload) (text_of (pp_message payload))
                                (pp_level payload) (time_at w (S (ticks w)))) in
  let evs := JobMessage "job_progress" (job_to_dict job')
               :: (if said then [log_event] else []) in
  api_progress payload w =
  (Returned RespOk,
   mkWorld (mkDB (jobs (update_job job' (db w)))
                 (job_logs (db w) ++ (if said then [log] else [])))
           (mkConnectionManager (map (deliver evs) (active (manager w))))
           (published w ++ evs) (clock w)
           (if said then S (S (ticks w)) else ticks w)).
Proof.
  intros H. destruct w as [d m p c t]. cbn in H.
  unfold api_progress, progress_job, bind, get_db, lift_outcome. cbn [db]. rewrite H.
  destruct (truthy (pp_message payload)); run_handler_deliver;
    rewrite ?app_nil_r, ?map_deliver_app, <- ?app_assoc; reflexivity.
Qed.

Lemma api_complete_world (payload : CompletePayload) (w : World) (job : Job) :
  query_job (db w) (cp_job_id payload) = Returned (Some job) ->
  let job' := complete_job payload (time_at w (ticks w)) job in
  let said := truthy (cp_message payload) in
  let log := mkJobLog (next_id (map log_id (job_logs (db w)))) (cp_job_id payload)
                      (time_at w (S (ticks w))) "info"
                      (text_of (cp_message payload)) in
  let ev := JobMessage "job_complete" (job_to_dict job') in
  api_complete payload w =
  (Returned RespOk,
   mkWorld (mkDB (jobs (update_job job' (db w)))
                 (job_logs (db w) ++ (if said then [log] else [])))
           (mkConnectionManager (map (deliver [ev]) (active (manager w))))
           (published w ++ [ev]) (clock w)
           (if said then S (S (ticks w)) else S (ticks w))).
Proof.
  intros H. destruct w as [d m p c t]. cbn in H.
  unfold api_complete, complete_job, bind, get_db, lift_outcome. cbn [db]. rewrite H.
  destruct (truthy (cp_message payload)); run_handler_deliver;
    rewrite ?app_nil_r; reflexivity.
Qed.

Ltac handle_cases r w :=
  let p := fresh "p" in
  let job := fresh "job" in
  let E := fresh "E" in
  let e := fresh "e" in
  destruct r as [p|p|p]; cbn [handle];
  [ rewrite (api_start_world p w)
  | destruct (query_job (db w) (pp_job_id p)) as [[job|]|e] eqn:E;
    [ rewrite (api_progress_world p w job E);
      apply query_job_known in E; destruct E as [_ E]
    | rewrite (api_progress_unknown p w E)
    | rewrite (api_progress_raised p w e E) ]
  | destruct (query_job (db w) (cp_job_id p)) as [[job|]|e] eqn:E;
    [ rewrite (api_complete_world p w job E);
      apply query_job_known in E; destruct E as [_ E]
    | rewrite (api_complete_unknown p w E)
    | rewrite (api_complete_raised p w e E) ] ];
  cbn [fst snd db manager published clock ticks jobs job_logs active].

(** ** Observers *)

Lemma handle_observers (r : Report) (w : World) :
  exists evs,
    published (snd (handle r w)) = published w ++ evs /\
    active (manager (snd (handle r w))) = map (deliver evs) (active (manager w)).
Proof.
  handle_cases r w; try (eexists; split; reflexivity);
    exists []; now rewrite app_nil_r, map_deliver_nil.
Qed.

Lemma run_observers (rs : list Report) (w : World) :
  exists evs,
    published (run rs w) = published w ++ evs /\
    active (manager (run rs w)) = map (deliver evs) (active (manager w)).
Proof.
  revert w. induction rs as [|r rs IH]; intros w; cbn [run].
  - exists []. now rewrite app_nil_r, map_deliver_nil.
  - destruct (handle_observers r w) as (e1 & Hp1 & Ha1).
    destruct (IH (snd (handle r w))) as (e2 & Hp2 & Ha2).
    exists (e1 ++ e2). rewrite Hp2, Hp1, Ha2, Ha1, map_deliver_app.
    now rewrite app_assoc.
Qed.

(** X1: along any run of reports, an observer that is registered and open
    receives exactly the events published during the run, in publish
    order, appended to what it had; a dead observer is left as it is and
    stays registered.  The observers keep their order in the registry. *)
Theorem observers_receive_published_events (rs : list Report) (w : World) :
  exists evs,
    published (run rs w) = published w ++ evs /\
    List.length (active (manager (run rs w))) = List.length (active (manager w)) /\
    (forall n ws, nth_error (active (manager w)) n = Some ws ->
                  nth_error (active (manager (run rs w))) n =
                  Some (if ws_open ws
                        then mkWebSocket (ws_id ws) true (ws_inbox ws ++ evs)
                        else ws)).
Proof.
  destruct (run_observers rs w) as (evs & Hp & Ha). exists evs.
  split; [exact Hp|]. rewrite Ha. split; [apply length_map|].
  intros n ws Hn. rewrite nth_error_map, Hn. reflexivity.
Qed.

(** X2: a newly connected observer is registered last with its inbox
    untouched: nothing published before is replayed to it; from then on it
    receives the events published after it connected, like the others. *)
Theorem connect_gets_no_replay (ws : WebSocket) (rs : list Report) (w : World) :
  let w1 := snd (connect ws w) in
  fst (connect ws w) = Returned tt /\
  active (manager w1) = active (manager w) ++ [ws] /\
  published w1 = published w /\ db w1 = db w /\
  exists evs,
    published (run rs w1) = published w ++ evs /\
    active (manager (run rs w1)) =
      map (deliver evs) (active (manager w)) ++ [deliver evs ws].
Proof.
  cbn. repeat split.
  destruct (run_observers rs (set_active (active (manager w) ++ [ws]) w))
    as (evs & Hp & Ha).
  exists evs. split; [exact Hp|]. rewrite Ha. cbn. now rewrite map_app.
Qed.

(** ** Disconnect *)

Lemma list_remove_absent (n : nat) (l : list WebSocket) :
  ~ In n (map ws_id l) -> list_remove n l = None.
Proof.
  induction l as [|ws l IH]; cbn; [reflexivity|]. intros H.
  destruct (Nat.eqb_spec (ws_id ws) n) as [E|_]; [tauto|].
  rewrite IH; [reflexivity|tauto].
Qed.

Lemma list_remove_present (n : nat) (l : list WebSocket) :
  In n (map ws_id l) ->
  exists before ws after,
    l = before ++ ws :: after /\ ws_id ws = n /\ ~ In n (map ws_id before) /\
    list_remove n l = Some (before ++ after).
Proof.
  induction l as [|ws l IH]; cbn; [tauto|]. intros H.
  destruct (Nat.eqb_spec (ws_id ws) n) as [E|Hne].
  - exists [], ws, l. cbn. auto.
  - destruct H as [H|H]; [contradiction|].
    destruct (IH H) as (b & x & a & -> & Hx & Hb & Hr).
    exists (ws :: b), x, a. rewrite Hr. cbn. repeat split; auto. tauto.
Qed.

(** X3: [disconnect] never raises.  For an observer that is not registered
    it changes nothing, so it may be called again after a disconnect; for a
    registered one it removes its first registration and keeps every other
    observer, in order.  Tables and published events are untouched. *)
Theorem disconnect_removes_first_or_nothing (ws : WebSocket) (w : World) :
  fst (disconnect ws w) = Returned tt /\
  db (snd (disconnect ws w)) = db w /\
  published (snd (disconnect ws w)) = published w /\
  (~ In (ws_id ws) (map ws_id (active (manager w))) -> snd (disconnect ws w) = w) /\
  (In (ws_id ws) (map ws_id (active (manager w))) ->
   exists before x after,
     active (manager w) = before ++ x :: after /\ ws_id x = ws_id ws /\
     ~ In (ws_id ws) (map ws_id before) /\
     active (manager (snd (disconnect ws w))) = before ++ after) /\
  (NoDup (map ws_id (active (manager w))) ->
   ~ In (ws_id ws) (map ws_id (active (manager (snd (disconnect ws w))))) /\
   snd (disconnect ws (snd (disconnect ws w))) = snd (disconnect ws w)).
Proof.
  unfold disconnect.
  destruct (in_dec Nat.eq_dec (ws_id ws) (map ws_id (active (manager w))))
    as [Hin|Hout].
  - destruct (list_remove_present _ _ Hin) as (b & x & a & Hl & Hx & Hb & Hr).
    rewrite Hr. cbn. repeat split; try tauto.
    + intros _. exists b, x, a. auto.
    + rewrite Hl, map_app in H. cbn in H. apply NoDup_remove_2 in H.
      rewrite Hx, <- map_app in H. exact H.
    + rewrite Hl, map_app in H. cbn in H. apply NoDup_remove_2 in H.
      rewrite Hx, <- map_app in H. now rewrite (list_remove_absent _ _ H).
  - rewrite (list_remove_absent _ _ Hout). cbn.
    repeat split; try tauto; rewrite (list_remove_absent _ _ Hout); reflexivity.
Qed.

(** ** Primary keys along a run *)

Lemma fold_max_keys_upto (n : nat) : fold_right Z.max 0 (keys_upto n) = Z.of_nat n.
Proof.
  unfold keys_upto. induction n as [|n IH]; [reflexivity|].
  rewrite seq_S, map_app. cbn [map].
  assert (H : forall l a, fold_right Z.max 0 (l ++ [a]) = Z.max (fold_right Z.max 0 l) (Z.max a 0)).
  { induction l as [|x l IHl]; intros a; cbn; [lia|]. rewrite IHl. lia. }
  rewrite H, IH. lia.
Qed.

Lemma keys_upto_S (n : nat) : keys_upto (S n) = keys_upto n ++ [next_id (keys_upto n)].
Proof.
  unfold next_id. rewrite fold_max_keys_upto. unfold keys_upto.
  rewrite seq_S, map_app. cbn [map]. do 2 f_equal. lia.
Qed.

Lemma handle_job_keys (r : Report) (w : World) (n : nat) :
  map id (jobs (db w)) = keys_upto n ->
  map id (jobs (db (snd (handle r w)))) =
  keys_upto (if is_start r then S n else n).
Proof.
  intros H. handle_cases r w; cbn [is_start];
    rewrite ?update_job_ids; try exact H.
  rewrite map_app, H, keys_upto_S. reflexivity.
Qed.

Lemma run_job_keys (rs : list Report) (w : World) (n : nat) :
  map id (jobs (db w)) = keys_upto n ->
  map id (jobs (db (run rs w))) = keys_upto (List.length (filter is_start rs) + n).
Proof.
  revert w n. induction rs as [|r rs IH]; intros w n H; cbn [run filter]; [exact H|].
  rewrite (IH _ _ (handle_job_keys r w n H)).
  destruct (is_start r); cbn [List.length]; f_equal; lia.
Qed.

Lemma keys_upto_NoDup (n : nat) : NoDup (keys_upto n).
Proof.
  unfold keys_upto. apply Finite.Injective_map_NoDup; [|apply seq_NoDup].
  intros a b. lia.
Qed.

(** X4: after any run from start-up, the ids of the jobs are 1, 2, ..., n
    in table order, n being the number of start reports of the run: every
    start report creates one job, no id is used twice, no job is ever
    removed, and the k-th start report is answered the id k. *)
Theorem job_ids_are_consecutive (rs : list Report) (clk : nat -> N) :
  let n := List.length (filter is_start rs) in
  map id (jobs (db (run rs (initial clk)))) = keys_upto n /\
  List.length (jobs (db (run rs (initial clk)))) = n /\
  NoDup (map id (jobs (db (run rs (initial clk))))) /\
  (forall p, fst (api_start p (run rs (initial clk))) =
             Returned (RespJobId (Z.of_nat (S n)))).
Proof.
  intros n.
  assert (H : map id (jobs (db (run rs (initial clk)))) = keys_upto n).
  { rewrite (run_job_keys rs (initial clk) 0 eq_refl). unfold n. f_equal. lia. }
  split; [exact H|]. split; [|split].
  - rewrite <- (length_map id), H. unfold keys_upto. now rewrite length_map, length_seq.
  - rewrite H. apply keys_upto_NoDup.
  - intros p. rewrite api_start_world. cbn [fst id]. rewrite H.
    unfold next_id. rewrite fold_max_keys_upto. do 2 f_equal. lia.
Qed.

(** ** What no report changes *)

Lemma handle_keeps_identity (r : Report) (w : World) (i : Z) (j : Job) :
  find_job (db w) i = Some j ->
  exists j',
    find_job (db (snd (handle r w))) i = Some j'
    /\ id j' = id j /\ job_name j' = job_name j /\ scope j' = scope j
    /\ triggered_by j' = triggered_by j /\ start_time j' = start_time j.
Proof.
  intros Hq. handle_cases r w; try (exists j; repeat split; auto; fail).
  - exists j. split; [|auto 6]. unfold find_job. cbn [jobs].
    now apply find_app_Some.
  - match goal with
    | |- context [find_job ?d i] =>
        rewrite (find_job_ext d (update_job (progress_job p job) (db w)) i eq_refl)
    end.
    rewrite find_update_job, Hq. cbn [option_map]. rewrite progress_job_id.
    destruct (Z.eqb_spec (id j) (id job)) as [Eid|_]; [|exists j; auto 6].
    assert (job = j) as ->.
    { destruct (find_job_Some _ _ _ Hq) as [_ Hi].
      destruct (find_job_Some _ _ _ E) as [_ Hi'].
      assert (Hii : i = pp_job_id p) by congruence.
      rewrite Hii in Hq. congruence. }
    eexists. split; [reflexivity|].
    unfold progress_job. destruct (pp_progress p); cbn; auto 6.
  - match goal with
    | |- context [find_job ?d i] =>
        rewrite (find_job_ext d (update_job (complete_job p (time_at w (ticks w)) job)
                                             (db w)) i eq_refl)
    end.
    rewrite find_update_job, Hq. cbn [option_map].
    change (id (complete_job p (time_at w (ticks w)) job)) with (id job).
    destruct (Z.eqb_spec (id j) (id job)) as [Eid|_]; [|exists j; auto 6].
    assert (job = j) as ->.
    { destruct (find_job_Some _ _ _ Hq) as [_ Hi].
      destruct (find_job_Some _ _ _ E) as [_ Hi'].
      assert (Hii : i = cp_job_id p) by congruence.
      rewrite Hii in Hq. congruence. }
    eexists. split; [reflexivity|]. cbn. auto 6.
Qed.

(** X5: whatever reports follow, a job that is in the table stays in it
    under its id, and its [job_name], [scope], [triggered_by] and
    [start_time] never change: no handler deletes a job or rewrites its
    descriptive fields. *)
Theorem jobs_persist_with_their_identity
        (rs : list Report) (w : World) (i : Z) (j : Job) :
  find_job (db w) i = Some j ->
  exists j',
    find_job (db (run rs w)) i = Some j'
    /\ id j' = id j /\ job_name j' = job_name j /\ scope j' = scope j
    /\ triggered_by j' = triggered_by j /\ start_time j' = start_time j.
Proof.
  revert w j. induction rs as [|r rs IH]; intros w j Hq; cbn [run].
  - exists j. auto 6.
  - destruct (handle_keeps_identity r w i j Hq) as (j1 & Hq1 & H1 & H2 & H3 & H4 & H5).
    destruct (IH _ _ Hq1) as (j2 & Hq2 & G1 & G2 & G3 & G4 & G5).
    exists j2. split; [exact Hq2|]. repeat split; congruence.
Qed.

Lemma jobs_persist_with_their_identity_witness :
  exists j',
    find_job (db (run demo_run demo_world)) 1 = Some j'
    /\ job_name j' = "Deploy" /\ start_time j' = time_at demo_world 0.
Proof.
  destruct (jobs_persist_with_their_identity demo_run demo_world 1 _ demo_world_row)
    as (j' & Hq & _ & Hn & _ & _ & Ht).
  exists j'. auto.
Defined.

Lemma handle_keeps_open_jobs_running (r : Report) (w : World) :
  (forall j, In j (jobs (db w)) -> end_time j = None -> status j = "running") ->
  forall j, In j (jobs (db (snd (handle r w)))) ->
            end_time j = None -> status j = "running".
Proof.
  intros Hinv. handle_cases r w; try exact Hinv.
  - intros j Hin. apply in_app_or in Hin.
    destruct Hin as [Hin|[<-|[]]]; [now apply Hinv|reflexivity].
  - intros j Hin. apply in_map_iff in Hin. destruct Hin as (j0 & Hj & Hin).
    destruct (id j0 =? id (progress_job p job)); [|subst; now apply Hinv].
    subst j. apply find_job_Some in E. destruct E as [E _].
    unfold progress_job. destruct (pp_progress p); cbn; now apply Hinv.
  - intros j Hin. apply in_map_iff in Hin. destruct Hin as (j0 & Hj & Hin).
    destruct (id j0 =? _); [|subst; now apply Hinv].
    subst j. cbn. discriminate.
Qed.

(** X6: after any run from start-up, a job without [end_time] has status
    running: a status other than the initial one never appears without a
    completion time, whatever the reports carried. *)
Theorem open_jobs_are_running (rs : list Report) (clk : nat -> N) (j : Job) :
  In j (jobs (db (run rs (initial clk)))) ->
  end_time j = None -> status j = "running".
Proof.
  revert j.
  apply (run_invariant
           (fun w => forall j, In j (jobs (db w)) -> end_time j = None ->
                               status j = "running")
           (fun _ => True)).
  - intros w r _. apply handle_keeps_open_jobs_running.
  - apply Forall_forall. trivial.
  - intros j [].
Qed.

Lemma open_jobs_are_running_witness :
  status (mkJob 1 "Deploy" "all" "ops" "running" 0%Q (time_at demo_world 0) None)
  = "running".
Proof.
  apply (open_jobs_are_running [Start demo_start] demo_clock);
    [left; reflexivity | reflexivity].
Defined.

(** ** Log order under a monotone clock *)

Lemma StronglySorted_snoc {A} (R : A -> A -> Prop) (l : list A) (a : A) :
  StronglySorted R l -> Forall (fun x => R x a) l -> StronglySorted R (l ++ [a]).
Proof.
  induction 1 as [|x l Hs IH Hx]; intros Ha; cbn.
  - repeat constructor.
  - inversion Ha; subst. constructor; [now apply IH|].
    apply Forall_app. split; [exact Hx|]. now constructor.
Qed.

Lemma StronglySorted_filter {A} (R : A -> A -> Prop) (f : A -> bool) (l : list A) :
  StronglySorted R l -> StronglySorted R (filter f l).
Proof.
  induction 1 as [|x l Hs IH Hx]; cbn; [constructor|].
  destruct (f x); [|exact IH]. constructor; [exact IH|].
  rewrite Forall_forall in *. intros y Hy. apply filter_In in Hy. now apply Hx.
Qed.

Lemma order_by_sorted_id {A} (leb : A -> A -> bool) (l : list A) :
  StronglySorted (le_of leb) l -> order_by leb l = l.
Proof.
  induction 1 as [|x l Hs IH Hx]; cbn; [reflexivity|].
  fold (order_by leb l). rewrite IH. destruct l as [|y l]; [reflexivity|].
  cbn. inversion Hx as [|? ? Hxy _]; subst. unfold le_of in Hxy. now rewrite Hxy.
Qed.

Lemma handle_clock (r : Report) (w : World) :
  clock (snd (handle r w)) = clock w /\ (ticks w <= ticks (snd (handle r w)))%nat.
Proof.
  handle_cases r w; split; try reflexivity; try lia;
    match goal with |- context [if ?b then _ else _] => destruct b end; lia.
Qed.

Lemma run_clock (rs : list Report) (w : World) : clock (run rs w) = clock w.
Proof.
  revert w. induction rs as [|r rs IH]; intros w; cbn [run]; [reflexivity|].
  rewrite IH. apply handle_clock.
Qed.

Lemma time_at_monotone (w : World) (n m : nat) :
  monotone (clock w) -> (n <= m)%nat -> (time_at w n <= time_at w m)%N.
Proof. intros Hm Hle. unfold time_at. specialize (Hm n m Hle). lia. Qed.

Lemma logs_in_ts_order_snoc (w : World) (logs : list JobLog) (l : JobLog) (t' : nat) :
  monotone (clock w) ->
  StronglySorted (fun a b => (ts a <= ts b)%N) logs ->
  Forall (fun x => (ts x <= time_at w (ticks w))%N) logs ->
  (exists k, (ticks w <= k <= t')%nat /\ ts l = time_at w k) ->
  StronglySorted (fun a b => (ts a <= ts b)%N) (logs ++ [l]) /\
  Forall (fun x => (ts x <= time_at w t')%N) (logs ++ [l]).
Proof.
  intros Hm Hs Hb (k & Hk & Hts). split.
  - apply StronglySorted_snoc; [exact Hs|].
    rewrite Forall_forall in *. intros x Hx. rewrite Hts.
    pose proof (Hb x Hx). pose proof (time_at_monotone w (ticks w) k Hm). lia.
  - apply Forall_app. split.
    + rewrite Forall_forall in *. intros x Hx. pose proof (Hb x Hx).
      pose proof (time_at_monotone w (ticks w) t' Hm). lia.
    + constructor; [|constructor]. rewrite Hts. apply time_at_monotone; [exact Hm|lia].
Qed.

Lemma logs_in_ts_order_intro (w w' : World) :
  clock w' = clock w ->
  StronglySorted (fun a b => (ts a <= ts b)%N) (job_logs (db w')) /\
  Forall (fun l => (ts l <= time_at w (ticks w'))%N) (job_logs (db w')) ->
  logs_in_ts_order w'.
Proof. intros Hc H. unfold logs_in_ts_order, time_at in *. now rewrite Hc. Qed.

Lemma logs_in_ts_order_later (w : World) (logs : list JobLog) (t' : nat) :
  monotone (clock w) -> (ticks w <= t')%nat ->
  Forall (fun x => (ts x <= time_at w (ticks w))%N) logs ->
  Forall (fun x => (ts x <= time_at w t')%N) logs.
Proof.
  intros Hm Hle Hb. rewrite Forall_forall in *. intros x Hx.
  pose proof (Hb x Hx). pose proof (time_at_monotone w (ticks w) t' Hm Hle). lia.
Qed.

Lemma handle_keeps_ts_order (r : Report) (w : World) :
  monotone (clock w) -> logs_in_ts_order w -> logs_in_ts_order (snd (handle r w)).
Proof.
  intros Hm [Hs Hb]. apply (logs_in_ts_order_intro w); [apply handle_clock|].
  handle_cases r w.
  - apply (logs_in_ts_order_snoc w); auto.
    exists (S (ticks w)). split; [lia|reflexivity].
  - destruct (truthy (pp_message p)).
    + apply (logs_in_ts_order_snoc w); auto.
      exists (ticks w). split; [lia|reflexivity].
    + rewrite app_nil_r. split; assumption.
  - split; assumption.
  - split; assumption.
  - destruct (truthy (cp_message p)).
    + apply (logs_in_ts_order_snoc w); auto.
      exists (S (ticks w)). split; [lia|reflexivity].
    + rewrite app_nil_r. split; [exact Hs|].
      apply (logs_in_ts_order_later w); auto.
  - split; assumption.
  - split; assumption.
Qed.

Lemma run_keeps_ts_order (rs : list Report) (w : World) :
  monotone (clock w) -> logs_in_ts_order w -> logs_in_ts_order (run rs w).
Proof.
  revert w. induction rs as [|r rs IH]; intros w Hm Hinv; cbn [run]; [exact Hinv|].
  apply IH.
  - now rewrite (proj1 (handle_clock r w)).
  - now apply handle_keeps_ts_order.
Qed.

(** X7: when the clock never goes back, after any run from start-up the
    log table is in ascending order of [ts], so [api_job_logs], asked with a
    job id within the signed 64-bit range and a limit and an offset below
    2^63, answers the rows of the job, each as its timestamp, level and
    message, in the order they were inserted (rows with equal timestamps
    included), after the offset and up to the limit. *)
Theorem monotone_clock_keeps_insertion_order
        (rs : list Report) (clk : nat -> N) (job_id limit offset : Z) :
  monotone clk ->
  - 2 ^ 63 <= job_id < 2 ^ 63 -> limit < 2 ^ 63 -> offset < 2 ^ 63 ->
  let w := run rs (initial clk) in
  let own := filter (fun r => log_job_id r =? job_id) (job_logs (db w)) in
  let rest := skipn (Z.to_nat offset) own in
  let page := if limit <=? 0 then rest else firstn (Z.to_nat limit) rest in
  StronglySorted (fun a b => (ts a <= ts b)%N) (job_logs (db w)) /\
  api_job_logs job_id limit offset w =
  (Returned (RespLogs (map (fun r => mkLogRow (ts r) (level r) (message r)) page)), w).
Proof.
  intros Hm Hj Hl Ho w own rest page.
  assert (Hinv : logs_in_ts_order w).
  { apply run_keeps_ts_order; [exact Hm|]. split; constructor. }
  destruct Hinv as [Hs _]. split; [exact Hs|].
  rewrite (api_job_logs_eq w job_id limit offset Hj Hl Ho).
  rewrite order_by_sorted_id; [reflexivity|].
  apply StronglySorted_filter.
  apply StronglySorted_impl with (R := fun a b => (ts a <= ts b)%N); [|exact Hs].
  intros a b H. now apply N.leb_le.
Qed.

Lemma monotone_clock_keeps_insertion_order_witness :
  api_job_logs 1 0 0 (run demo_run (initial demo_clock)) =
  (Returned (RespLogs
               [mkLogRow (time_at (initial demo_clock) 1) "info" "Job started";
                mkLogRow (time_at (initial demo_clock) 3) "info"
                         "Playbook completed successfully."]),
   run demo_run (initial demo_clock)).
Proof.
  assert (Hm : monotone demo_clock).
  { intros n m H. unfold demo_clock. lia. }
  assert (Hj : - 2 ^ 63 <= 1 < 2 ^ 63) by lia.
  assert (Hl : 0 < 2 ^ 63) by lia.
  exact (proj2 (monotone_clock_keeps_insertion_order demo_run demo_clock 1 0 0
                                                     Hm Hj Hl Hl)).
Defined.

(** ** Reports that follow one another *)

(** X8: a progress report that arrives after the completion report of a
    job is still accepted: it overwrites the forced progress 100 with its
    own value, and leaves the status and the [end_time] of the completion as
    they are. *)
Theorem progress_after_completion
        (w : World) (c : CompletePayload) (p : ProgressPayload) (job : Job) (q : Q) :
  query_job (db w) (cp_job_id c) = Returned (Some job) ->
  pp_job_id p = cp_job_id c ->
  pp_progress p = Some q ->
  let w1 := snd (api_complete c w) in
  let w2 := snd (api_progress p w1) in
  fst (api_progress p w1) = Returned RespOk /\
  exists j2,
    find_job (db w2) (cp_job_id c) = Some j2
    /\ progress j2 = q
    /\ status j2 = cp_status c
    /\ end_time j2 = Some (time_at w (ticks w)).
Proof.
  intros Hq Hid Hp w1 w2.
  pose proof (api_complete_row c w job Hq) as H1. fold w1 in H1.
  rewrite <- Hid in H1.
  split.
  - now destruct (api_progress_effect p w1 _ H1).
  - pose proof (api_progress_row p w1 _ H1) as H2. fold w2 in H2.
    rewrite Hid in H2. apply query_job_known in H2. destruct H2 as [_ H2].
    eexists. split; [exact H2|].
    unfold progress_job. rewrite Hp. cbn. auto.
Qed.

Lemma progress_after_completion_witness :
  exists j2,
    find_job (db (snd (api_progress demo_progress_150
                                     (snd (api_complete demo_complete demo_world))))) 1
    = Some j2
    /\ progress j2 = (150 # 1)%Q /\ status j2 = "success".
Proof.
  destruct (progress_after_completion demo_world demo_complete demo_progress_150 _
              (150 # 1)%Q demo_world_job eq_refl eq_refl)
    as (_ & j2 & Hq & Hp & Hs & _).
  exists j2. auto.
Defined.

(** X9: a second completion report on the same job is accepted like the
    first: the status and the [end_time] of the later report replace those
    of the earlier one, and the progress stays 100. *)
Theorem completion_twice_last_wins
        (w : World) (c1 c2 : CompletePayload) (job : Job) :
  query_job (db w) (cp_job_id c1) = Returned (Some job) ->
  cp_job_id c2 = cp_job_id c1 ->
  let w1 := snd (api_complete c1 w) in
  let w2 := snd (api_complete c2 w1) in
  fst (api_complete c2 w1) = Returned RespOk /\
  exists j2,
    find_job (db w2) (cp_job_id c1) = Some j2
    /\ status j2 = cp_status c2
    /\ progress j2 = 100%Q
    /\ end_time j2 = Some (time_at w1 (ticks w1))
    /\ (ticks w < ticks w1)%nat.
Proof.
  intros Hq Hid w1 w2.
  pose proof (api_complete_row c1 w job Hq) as H1. fold w1 in H1.
  rewrite <- Hid in H1.
  split.
  - now destruct (api_complete_effect c2 w1 _ H1).
  - pose proof (api_complete_row c2 w1 _ H1) as H2. fold w2 in H2.
    rewrite Hid in H2. apply query_job_known in H2. destruct H2 as [_ H2].
    eexists. split; [exact H2|]. cbn.
    repeat split. unfold w1. rewrite (api_complete_world c1 w job Hq). cbn.
    destruct (truthy (cp_message c1)); lia.
Qed.

Lemma completion_twice_last_wins_witness :
  exists j2,
    find_job (db (snd (api_complete (mkCompletePayload 1 "failed" None)
                                     (snd (api_complete demo_complete demo_world))))) 1
    = Some j2
    /\ status j2 = "failed" /\ progress j2 = 100%Q.
Proof.
  destruct (completion_twice_last_wins demo_world demo_complete
              (mkCompletePayload 1 "failed" None) _ demo_world_job eq_refl)
    as (_ & j2 & Hq & Hs & Hp & _).
  exists j2. auto.
Defined.

Lemma api_jobs_eq (w : World) (range : string) :
  api_jobs range w =
  (Returned
     (RespJobs
        (map job_to_dict
             (order_by start_time_desc
                (filter (fun j => (spec_cutoff range (time_at w (ticks w))
                                   <=? start_time j)%N)
                        (jobs (db w)))))),
   mkWorld (db w) (manager w) (published w) (clock w) (S (ticks w))).
Proof.
  unfold api_jobs, bind, utcnow, lift_outcome, get_db, ret. cbn [fst snd db].
  now rewrite (range_cutoff_total range w (ticks w)).
Qed.

(** X10: a job listing right after a start report holds the new job, with
    status running, progress 0 and no [end_time], whenever the start time of
    the job is not before the cutoff of the listing. *)
Theorem api_jobs_lists_started_job (w : World) (payload : StartPayload) (range : string) :
  let w1 := snd (api_start payload w) in
  let started :=
    mkJobDict (next_id (map id (jobs (db w)))) (sp_job_name payload)
              (sp_scope payload) (sp_triggered_by payload) "running" 0%Q
              (Some (time_at w (ticks w))) None in
  (spec_cutoff range (time_at w (S (S (ticks w)))) <= time_at w (ticks w))%N ->
  exists rows,
    fst (api_jobs range w1) = Returned (RespJobs rows) /\ In started rows.
Proof.
  intros w1 started Hcut. unfold w1. rewrite api_start_world, api_jobs_eq.
  cbn [fst snd db jobs ticks]. eexists. split; [reflexivity|].
  apply in_map_iff.
  exists (mkJob (next_id (map id (jobs (db w)))) (sp_job_name payload)
                (sp_scope payload) (sp_triggered_by payload) "running" 0%Q
                (time_at w (ticks w)) None).
  split; [reflexivity|].
  apply (Permutation_in _ (Permutation_sym (order_by_Permutation _ _))).
  apply filter_In. split; [apply in_or_app; right; left; reflexivity|].
  cbn [start_time]. apply N.leb_le. exact Hcut.
Qed.

Lemma api_jobs_lists_started_job_witness :
  exists rows,
    fst (api_jobs "all" (snd (api_start demo_start demo_world))) =
      Returned (RespJobs rows) /\
    In (mkJobDict 2 "Deploy" "all" "ops" "running" 0%Q
                  (Some (time_at demo_world (ticks demo_world))) None) rows.
Proof.
  apply (api_jobs_lists_started_job demo_world demo_start "all").
  apply N.leb_le. vm_compute. reflexivity.
Defined.

Lemma api_start_row (payload : StartPayload) (w : World) :
  find_job (db (snd (api_start payload w))) (next_id (map id (jobs (db w)))) =
  Some (mkJob (next_id (map id (jobs (db w)))) (sp_job_name payload)
              (sp_scope payload) (sp_triggered_by payload) "running" 0%Q
              (time_at w (ticks w)) None).
Proof.
  rewrite api_start_world. cbn [snd db]. unfold find_job. cbn [jobs].
  rewrite find_app_None.
  - cbn. now rewrite Z.eqb_refl.
  - apply (find_job_None (db w)). intros j Hin.
    apply (in_map id) in Hin. apply next_id_fresh in Hin. lia.
Qed.

(** X11: a progress report with a non-empty message on a known job
    appends one log row and publishes two events, [job_progress] then
    [job_log].  The row stores the level with "info" in place of a null or
    empty level, while the event carries the level as it was sent; the row
    and the event take their timestamps from two successive clock
    readings. *)
Theorem api_progress_message_row_and_event
        (w : World) (payload : ProgressPayload) (job : Job) (m : string) :
  query_job (db w) (pp_job_id payload) = Returned (Some job) ->
  pp_message payload = Some m -> m <> EmptyString ->
  let w' := snd (api_progress payload w) in
  job_logs (db w') =
    job_logs (db w) ++
    [mkJobLog (next_id (map log_id (job_logs (db w)))) (pp_job_id payload)
              (time_at w (ticks w))
              (match pp_level payload with
               | Some l => if (l =? EmptyString)%string then "info" else l
               | None => "info"
               end)
              m] /\
  published w' =
    published w ++
    [JobMessage "job_progress" (job_to_dict (progress_job payload job));
     LogMessage "job_log"
       (mkLogDict (pp_job_id payload) m (pp_level payload) (time_at w (S (ticks w))))].
Proof.
  intros Hq Hm Hne w'. unfold w'. rewrite (api_progress_world payload w job Hq).
  cbn [snd db job_logs published]. rewrite Hm, (truthy_Some m Hne).
  split; reflexivity.
Qed.

Lemma api_progress_message_row_and_event_witness :
  let payload := mkProgressPayload 1 None (Some "halfway") None in
  exists row,
    job_logs (db (snd (api_progress payload demo_world))) =
      job_logs (db demo_world) ++ [row]
    /\ level row = "info" /\ message row = "halfway".
Proof.
  intros payload.
  destruct (api_progress_message_row_and_event demo_world payload _ "halfway"
              demo_world_job eq_refl) as [Hl _]; [discriminate|].
  eexists. split; [exact Hl|]. split; reflexivity.
Defined.

(** X12: the life of a job.  From a world whose log rows reference known
    jobs and whose next job id is below 2^63, a start report, then a
    progress report with a non-empty message on the new job, then a
    completion report with a non-empty message on it, leave the job with
    the requested status, progress 100, an [end_time] and its name, and
    exactly three log rows of its own, in this order: "Job started", the
    progress message, the completion message. *)
Theorem start_progress_complete
        (w : World) (sp : StartPayload) (q : option Q) (m : string)
        (lvl : option string) (s m' : string) :
  logs_reference_jobs (db w) ->
  next_id (map id (jobs (db w))) < 2 ^ 63 ->
  m <> EmptyString -> m' <> EmptyString ->
  let new_id := next_id (map id (jobs (db w))) in
  let w3 := run [Start sp;
                 Progress (mkProgressPayload new_id q (Some m) lvl);
                 Complete (mkCompletePayload new_id s (Some m'))] w in
  (exists j,
      find_job (db w3) new_id = Some j
      /\ status j = s /\ progress j = 100%Q /\ end_time j <> None
      /\ job_name j = sp_job_name sp) /\
  map message (filter (fun r => log_job_id r =? new_id) (job_logs (db w3))) =
  ["Job started"; m; m'].
Proof.
  intros Hinv Hnew Hm Hm' new_id w3. unfold w3. cbn [run handle].
  assert (Hr : in_int64 new_id = true).
  { apply in_int64_literal. pose proof (next_id_positive (map id (jobs (db w)))).
    unfold new_id. lia. }
  set (p := mkProgressPayload new_id q (Some m) lvl).
  set (c := mkCompletePayload new_id s (Some m')).
  set (w1 := snd (api_start sp w)).
  pose proof (query_job_intro _ _ _ Hr (api_start_row sp w)) as Hq1.
  fold new_id w1 in Hq1.
  destruct (api_start_effect sp w) as (_ & _ & Hl1 & _). fold w1 in Hl1.
  set (w2 := snd (api_progress p w1)).
  pose proof (api_progress_row p w1 _ Hq1) as Hq2. fold w2 in Hq2.
  destruct (api_progress_effect p w1 _ Hq1) as (_ & _ & Hl2 & _). fold w2 in Hl2.
  pose proof (api_complete_row c w2 _ Hq2) as Hq3.
  destruct (api_complete_effect c w2 _ Hq2) as (_ & _ & Hl3 & _).
  split.
  - apply query_job_known in Hq3. destruct Hq3 as [_ Hq3].
    eexists. split; [exact Hq3|]. unfold progress_job. cbn.
    destruct q; cbn; repeat split; discriminate.
  - rewrite Hl3, Hl2, Hl1. cbn [cp_message pp_message c p].
    rewrite (truthy_Some m Hm), (truthy_Some m' Hm').
    rewrite !filter_app, (filter_none _ (job_logs (db w))).
    + cbn. fold new_id. rewrite Z.eqb_refl. reflexivity.
    + intros r Hin. apply Hinv, next_id_fresh in Hin.
      apply Z.eqb_neq. unfold new_id. lia.
Qed.

Lemma start_progress_complete_witness :
  map message
      (filter (fun r => log_job_id r =? 1)
              (job_logs (db (run [Start demo_start;
                                  Progress (mkProgressPayload 1 (Some (50 # 1))
                                                              (Some "halfway") None);
                                  Complete demo_complete]
                                 (initial demo_clock))))) =
  ["Job started"; "halfway"; "Playbook completed successfully."].
Proof.
  apply (start_progress_complete (initial demo_clock) demo_start (Some (50 # 1))
           "halfway" None "success" "Playbook completed successfully.").
  - intros r [].
  - reflexivity.
  - discriminate.
  - discriminate.
Defined.

(** * Properties of the reporter *)

(** ** Chunked upload *)

Lemma substring_skip (i m : nat) (s : string) :
  substring i m s = substring 0 m (skip i s).
Proof.
  revert s. induction i as [|i IH]; intros s; [reflexivity|].
  destruct s as [|c s]; cbn; [now destruct m|apply IH].
Qed.

Lemma take_skip (m : nat) (r : string) :
  String.append (substring 0 m r) (skip m r) = r.
Proof.
  revert r. induction m as [|m IH]; intros r; [now destruct r|].
  destruct r as [|c r]; cbn; [reflexivity|]. now rewrite IH.
Qed.

Lemma skip_add (i m : nat) (s : string) : skip (i + m) s = skip m (skip i s).
Proof.
  revert s. induction i as [|i IH]; intros s; [reflexivity|].
  destruct s as [|c s]; cbn; [now destruct m|apply IH].
Qed.

Lemma length_skip (i : nat) (s : string) :
  String.length (skip i s) = (String.length s - i)%nat.
Proof.
  revert s. induction i as [|i IH]; intros s; cbn; [lia|].
  destruct s as [|c s]; cbn; [reflexivity|apply IH].
Qed.

Lemma length_take (m : nat) (r : string) :
  String.length (substring 0 m r) = Nat.min m (String.length r).
Proof.
  revert r. induction m as [|m IH]; intros r; [now destruct r|].
  destruct r as [|c r]; cbn; [reflexivity|]. now rewrite IH.
Qed.

Lemma skip_all (i : nat) (s : string) :
  (String.length s <= i)%nat -> skip i s = EmptyString.
Proof.
  revert s. induction i as [|i IH]; intros s H.
  - destruct s; [reflexivity|cbn in H; lia].
  - destruct s as [|c s]; [reflexivity|]. cbn in *. apply IH. lia.
Qed.

Lemma post_log_chunks_loop_spec (text : string) (chunk_size : nat) :
  (0 < chunk_size)%nat ->
  forall fuel i,
    (String.length text - i <= fuel)%nat ->
    exists chunks,
      post_log_chunks_loop fuel text chunk_size i = Some chunks /\
      join chunks = skip i text /\
      Forall (fun c => (1 <= String.length c <= chunk_size)%nat) chunks.
Proof.
  intros Hcs fuel. induction fuel as [|fuel IH]; intros i Hfuel.
  - exists []. cbn [post_log_chunks_loop].
    destruct (Nat.ltb_spec i (String.length text)); [lia|].
    split; [reflexivity|]. split; [|constructor].
    cbn. symmetry. apply skip_all. lia.
  - cbn [post_log_chunks_loop].
    destruct (Nat.ltb_spec i (String.length text)) as [Hlt|Hge].
    + destruct (IH (i + chunk_size)%nat) as (chunks & Hl & Hj & Hf); [lia|].
      rewrite Hl. cbn [option_map]. eexists. split; [reflexivity|]. split.
      * cbn [join fold_right]. fold (join chunks).
        rewrite Hj, substring_skip, skip_add. apply take_skip.
      * constructor; [|exact Hf].
        rewrite substring_skip, length_take, length_skip. lia.
    + exists []. split; [reflexivity|]. split; [|constructor].
      cbn. symmetry. apply skip_all. lia.
Qed.

(** X13: for a positive chunk size and at least as many iterations as
    the text has characters, [_post_log_chunks] finishes; the chunks it
    posts, put end to end in posting order, are the text; every chunk is
    non-empty and no longer than the chunk size; each is posted as a message
    of level info without a progress value.  An empty text posts nothing. *)
Theorem post_log_chunks_rebuild_text
        (fuel : nat) (job_id : Z) (text : string) (chunk_size : nat) :
  (0 < chunk_size)%nat -> (String.length text <= fuel)%nat ->
  exists chunks,
    post_log_chunks_loop fuel text chunk_size 0 = Some chunks /\
    join chunks = text /\
    Forall (fun c => (1 <= String.length c <= chunk_size)%nat) chunks /\
    _post_log_chunks fuel job_id text chunk_size =
      Some (map (fun c => mkProgressBody job_id (Some c) (Some "info") None) chunks) /\
    (text = EmptyString -> chunks = []).
Proof.
  intros Hcs Hfuel.
  destruct (post_log_chunks_loop_spec text chunk_size Hcs fuel 0)
    as (chunks & Hl & Hj & Hf); [lia|].
  exists chunks. split; [exact Hl|]. split; [exact Hj|]. split; [exact Hf|]. split.
  - unfold _post_log_chunks. rewrite Hl. cbn [option_map]. apply (f_equal Some).
    clear. induction chunks as [|c l IH]; [reflexivity|].
    cbn [flat_map map]. rewrite IH. reflexivity.
  - intros ->. destruct fuel; cbn in Hl; now inversion Hl.
Qed.

Lemma post_log_chunks_rebuild_text_witness :
  exists chunks,
    post_log_chunks_loop 7 "abcdefg" 3 0 = Some chunks /\ join chunks = "abcdefg".
Proof.
  destruct (post_log_chunks_rebuild_text 7 1 "abcdefg" 3) as (chunks & Hl & Hj & _).
  - lia.
  - cbn. lia.
  - exists chunks. split; assumption.
Defined.

(** X14: with a chunk size of zero the loop of [_post_log_chunks] never
    finishes on a non-empty text: the index does not advance, so no number
    of iterations is enough. *)
Theorem post_log_chunks_zero_size_diverges (fuel : nat) (job_id : Z) (text : string) :
  text <> EmptyString ->
  post_log_chunks_loop fuel text 0 0 = None /\
  _post_log_chunks fuel job_id text 0 = None.
Proof.
  intros Hne.
  assert (H : post_log_chunks_loop fuel text 0 0 = None).
  { induction fuel as [|fuel IH]; cbn [post_log_chunks_loop];
      destruct text as [|c t]; try contradiction; cbn [String.length Nat.ltb Nat.leb].
    - reflexivity.
    - cbn [Nat.add]. rewrite IH. reflexivity. }
  split; [exact H|]. unfold _post_log_chunks. now rewrite H.
Qed.

Lemma post_log_chunks_zero_size_diverges_witness :
  post_log_chunks_loop 1000 "x" 0 0 = None.
Proof.
  apply (post_log_chunks_zero_size_diverges 1000 1 "x"). discriminate.
Defined.

Lemma lines_become_log_rows (job_id : Z) (job : Job) (ms : list string) :
  Forall (fun m => m <> EmptyString) ms ->
  forall w,
    query_job (db w) job_id = Returned (Some job) ->
    let w' := run (progress_reports
                     (map (fun c => mkProgressBody job_id (Some c) (Some "info") None) ms))
                  w in
    exists rows,
      job_logs (db w') = job_logs (db w) ++ rows /\
      map message rows = ms /\
      Forall (fun r => log_job_id r = job_id /\ level r = "info") rows /\
      query_job (db w') job_id = Returned (Some job).
Proof.
  induction 1 as [|m ms Hm Hms IH]; intros w Hq; cbn zeta.
  - exists []. cbn. rewrite app_nil_r. auto.
  - cbn [map progress_reports run handle].
    set (p := ProgressPayload_validate
                (mkProgressBody job_id (Some m) (Some "info") None)).
    assert (Hq' : query_job (db w) (pp_job_id p) = Returned (Some job)) by exact Hq.
    destruct (api_progress_effect p w job Hq') as (_ & _ & Hl & _).
    pose proof (api_progress_row p w job Hq') as Hrow.
    change (progress_job p job) with job in Hrow.
    change (pp_job_id p) with job_id in Hrow.
    destruct (IH _ Hrow) as (rows & Hl' & Hmsg & Hf & Hq2).
    cbn [pp_message p ProgressPayload_validate b_message] in Hl.
    rewrite (truthy_Some m Hm) in Hl.
    eexists (_ :: rows). unfold progress_reports in Hl'. rewrite Hl', Hl, <- app_assoc.
    split; [reflexivity|]. split; [cbn; now rewrite Hmsg|].
    split; [|exact Hq2]. constructor; [|exact Hf]. split; reflexivity.
Qed.

(** X15: a text uploaded in chunks to a known job arrives whole: the
    loop of [_post_log_chunks] cuts the text into chunks, each non-empty and
    no longer than the chunk size, which put end to end are the text; each
    chunk is posted as one report of level info without a progress value;
    the reports, handled in posting order, append exactly one info row per
    chunk to the job's log, the message of the n-th new row being the n-th
    chunk; and the job itself (status, progress, times) is left as it
    was. *)
Theorem chunked_upload_arrives_whole
        (w : World) (job : Job) (fuel : nat) (job_id : Z) (text : string)
        (chunk_size : nat) :
  query_job (db w) job_id = Returned (Some job) ->
  (0 < chunk_size)%nat -> (String.length text <= fuel)%nat ->
  exists chunks rows,
    post_log_chunks_loop fuel text chunk_size 0 = Some chunks /\
    join chunks = text /\
    Forall (fun c => (1 <= String.length c <= chunk_size)%nat) chunks /\
    _post_log_chunks fuel job_id text chunk_size =
      Some (map (fun c => mkProgressBody job_id (Some c) (Some "info") None) chunks) /\
    let w' := run (progress_reports
                     (map (fun c => mkProgressBody job_id (Some c) (Some "info") None)
                          chunks)) w in
    job_logs (db w') = job_logs (db w) ++ rows /\
    map message rows = chunks /\
    List.length rows = List.length chunks /\
    Forall (fun r => log_job_id r = job_id /\ level r = "info") rows /\
    query_job (db w') job_id = Returned (Some job).
Proof.
  intros Hq Hcs Hfuel.
  destruct (post_log_chunks_loop_spec text chunk_size Hcs fuel 0)
    as (chunks & Hl & Hj & Hf); [lia|].
  assert (Hb : _post_log_chunks fuel job_id text chunk_size =
               Some (map (fun c => mkProgressBody job_id (Some c) (Some "info") None)
                         chunks)).
  { unfold _post_log_chunks. rewrite Hl. cbn [option_map]. apply (f_equal Some).
    clear. induction chunks as [|c l IH]; [reflexivity|].
    cbn [flat_map map]. rewrite IH. reflexivity. }
  assert (Hne : Forall (fun m => m <> EmptyString) chunks).
  { rewrite Forall_forall in *. intros c Hc E. specialize (Hf c Hc).
    rewrite E in Hf. cbn in Hf. lia. }
  destruct (lines_become_log_rows job_id job chunks Hne w Hq)
    as (rows & Hrows & Hmsg & Hall & Hq').
  exists chunks, rows.
  split; [exact Hl|]. split; [exact Hj|]. split; [exact Hf|]. split; [exact Hb|].
  cbn zeta. split; [exact Hrows|]. split; [exact Hmsg|].
  split; [|split; assumption].
  rewrite <- Hmsg. now rewrite length_map.
Qed.

Lemma chunked_upload_arrives_whole_witness :
  exists rows,
    job_logs (db (run (progress_reports
                         (map (fun c => mkProgressBody 1 (Some c) (Some "info") None)
                              ["abc"; "def"; "g"]))
                      demo_world)) =
      job_logs (db demo_world) ++ rows /\
    map message rows = ["abc"; "def"; "g"].
Proof.
  destruct (chunked_upload_arrives_whole demo_world _ 7 1 "abcdefg" 3 demo_world_job)
    as (chunks & rows & Hc & _ & _ & _ & Hl & Hm & _).
  - lia.
  - cbn. lia.
  - injection Hc as <-. exists rows. split; assumption.
Defined.

(** ** URLs *)

Lemma rstrip_slash_no_trailing (s : string) : endswith_slash (rstrip_slash s) = false.
Proof.
  induction s as [|c s IH]; [reflexivity|]. cbn [rstrip_slash].
  destruct (rstrip_slash s) as [|c' r] eqn:E.
  - destruct (Ascii.eqb c "/") eqn:Ec; [reflexivity|]. cbn. exact Ec.
  - cbn [endswith_slash]. exact IH.
Qed.

Lemma rstrip_slash_append_slash (s : string) :
  rstrip_slash (String.append s "/") = rstrip_slash s.
Proof.
  induction s as [|c s IH]; [reflexivity|].
  cbn [String.append rstrip_slash]. now rewrite IH.
Qed.

Lemma rstrip_slash_fixed (s : string) :
  endswith_slash s = false -> rstrip_slash s = s.
Proof.
  induction s as [|c s IH]; [reflexivity|]. cbn [endswith_slash rstrip_slash].
  destruct s as [|c' s'].
  - cbn. intros ->. reflexivity.
  - intros H. rewrite (IH H). reflexivity.
Qed.

(** X16: [_api_url] joins base and path with one slash: the base it uses
    never ends with a slash, and a path that lacks its leading slash gets
    one, so the result is the same with or without it, and the same whether
    or not the configured URL has a trailing slash.  The localhost default
    is taken when no URL or an empty one is configured. *)
Theorem api_url_normalises_slashes (url path : string) :
  url <> EmptyString ->
  startswith_slash path = false ->
  (exists base,
      _api_url (Some url) path = String.append base (String "/" path) /\
      endswith_slash base = false /\
      (endswith_slash url = false -> base = url)) /\
  _api_url (Some url) (String "/" path) = _api_url (Some url) path /\
  _api_url (Some (String.append url "/")) path = _api_url (Some url) path /\
  _api_url None path = String.append "http://localhost:8000" (String "/" path) /\
  _api_url (Some EmptyString) path = _api_url None path.
Proof.
  intros Hurl Hpath. unfold _api_url. cbn [startswith_slash]. rewrite Hpath.
  assert (Hor : str_or (Some url) "http://localhost:8000" = url).
  { cbn. destruct (String.eqb_spec url EmptyString); [contradiction|reflexivity]. }
  assert (Hor' : str_or (Some (String.append url "/")) "http://localhost:8000"
                 = String.append url "/").
  { cbn. destruct (String.eqb_spec (String.append url "/") EmptyString) as [E|_];
      [|reflexivity]. destruct url; discriminate E. }
  rewrite Hor, Hor', rstrip_slash_append_slash, Ascii.eqb_refl.
  split; [|repeat split; reflexivity].
  exists (rstrip_slash url). split; [reflexivity|].
  split; [apply rstrip_slash_no_trailing|apply rstrip_slash_fixed].
Qed.

Lemma api_url_normalises_slashes_witness :
  _api_url (Some "http://dash:8000/") "api/jobs/start" =
  _api_url (Some "http://dash:8000") "/api/jobs/start".
Proof.
  destruct (api_url_normalises_slashes "http://dash:8000" "api/jobs/start")
    as (_ & H1 & H2 & _).
  - discriminate.
  - reflexivity.
  - change (Some "http://dash:8000/")
      with (Some (String.append "http://dash:8000" "/")).
    rewrite H2. symmetry. exact H1.
Defined.

(** ** The queue of lines *)

Lemma post_progress_line (n : Z) (entry : string * string) (s : CallbackModule.State) :
  CallbackModule.post_progress n (Some (fst entry)) (snd entry) None s =
  CallbackModule.mkState
    (CallbackModule.job_id s) (CallbackModule._buffer s)
    (CallbackModule._pending_lines s) true (CallbackModule._progress_total s)
    (CallbackModule._tasks_started s) (CallbackModule._last_progress_sent s)
    (CallbackModule.posted s ++ [CallbackModule.line_body n entry]).
Proof.
  unfold CallbackModule.post_progress, _post_progress, CallbackModule.line_body.
  cbn [option_map]. rewrite orb_true_l, andb_true_r.
  now destruct (snd entry =? EmptyString)%string.
Qed.

Lemma fold_post_lines (n : Z) (pending : list (string * string))
      (s : CallbackModule.State) :
  let s' := fold_left (fun s (entry : string * string) =>
                         CallbackModule.post_progress n (Some (fst entry)) (snd entry)
                                                      None s)
                      pending s in
  CallbackModule.posted s' =
    CallbackModule.posted s ++ map (CallbackModule.line_body n) pending /\
  CallbackModule._pending_lines s' = CallbackModule._pending_lines s /\
  CallbackModule.job_id s' = CallbackModule.job_id s /\
  CallbackModule._buffer s' = CallbackModule._buffer s /\
  CallbackModule._last_progress_sent s' = CallbackModule._last_progress_sent s.
Proof.
  revert s. induction pending as [|e l IH]; intros s; cbn zeta; cbn [fold_left map].
  - rewrite app_nil_r. auto.
  - rewrite post_progress_line.
    destruct (IH (CallbackModule.mkState
                    (CallbackModule.job_id s) (CallbackModule._buffer s)
                    (CallbackModule._pending_lines s) true
                    (CallbackModule._progress_total s)
                    (CallbackModule._tasks_started s)
                    (CallbackModule._last_progress_sent s)
                    (CallbackModule.posted s ++ [CallbackModule.line_body n e])))
      as (Hp & Hl & Hj & Hb & Hlast).
    cbn zeta in Hp, Hl, Hj, Hb, Hlast.
    rewrite Hp, Hl, Hj, Hb, Hlast. cbn. rewrite <- app_assoc. auto.
Qed.

Lemma messages_of_line_bodies (n : Z) (pending : list (string * string)) :
  flat_map (fun b => match b_message b with Some m => [m] | None => [] end)
           (map (CallbackModule.line_body n) pending) = map fst pending.
Proof.
  induction pending as [|e l IH]; [reflexivity|]. cbn. now rewrite IH.
Qed.

Ltac finish_flush :=
  cbn [CallbackModule.posted CallbackModule.set_pending_lines
       CallbackModule.set_job_id CallbackModule._pending_lines
       CallbackModule.job_id CallbackModule._buffer
       CallbackModule._last_progress_sent] in *;
  repeat split; try reflexivity; try assumption;
  try (let E := fresh in intros E; subst; discriminate);
  try (let H := fresh in intros H; exfalso; apply H; reflexivity);
  try (intro; assumption).

(** What [_flush_pending_lines] does, by whether a job id is at hand. *)
Lemma flush_pending_lines_spec (discovered : option Z) (s : CallbackModule.State) :
  let s' := CallbackModule._flush_pending_lines discovered s in
  CallbackModule._buffer s' = CallbackModule._buffer s /\
  CallbackModule._last_progress_sent s' = CallbackModule._last_progress_sent s /\
  if CallbackModule.job_known discovered s then
    exists n,
      CallbackModule.effective_job_id discovered s = Some n /\ n <> 0 /\
      CallbackModule.posted s' =
        CallbackModule.posted s
        ++ map (CallbackModule.line_body n) (CallbackModule._pending_lines s) /\
      CallbackModule._pending_lines s' = [] /\
      (CallbackModule._pending_lines s <> [] -> CallbackModule.job_id s' = Some n)
  else
    CallbackModule.posted s' = CallbackModule.posted s /\
    CallbackModule._pending_lines s' = CallbackModule._pending_lines s.
Proof.
  destruct s as [j b pend sa tot started last post].
  unfold CallbackModule._flush_pending_lines, CallbackModule._ensure_job_id,
    CallbackModule.job_known, CallbackModule.effective_job_id.
  cbn [CallbackModule.job_id CallbackModule._pending_lines CallbackModule.posted
       CallbackModule._buffer CallbackModule._last_progress_sent].
  destruct pend as [|e pend].
  - cbn zeta. split; [reflexivity|]. split; [reflexivity|].
    destruct j as [n|]; cbn [CallbackModule.truthy_int];
      [destruct (negb (n =? 0)) eqn:Ej|]; cbn [orb].
    + exists n. rewrite app_nil_r. finish_flush.
    + destruct discovered as [m|]; cbn [CallbackModule.truthy_int];
        [destruct (negb (m =? 0)) eqn:Ed|]; [|auto..].
      exists m. rewrite app_nil_r. finish_flush.
    + destruct discovered as [m|]; cbn [CallbackModule.truthy_int];
        [destruct (negb (m =? 0)) eqn:Ed|]; [|auto..].
      exists m. rewrite app_nil_r. finish_flush.
  - destruct j as [n|]; cbn [CallbackModule.truthy_int];
      [destruct (negb (n =? 0)) eqn:Ej|]; cbn [orb].
    + cbn [CallbackModule._pending_lines]. rewrite Ej.
      match goal with
      | |- context [fold_left ?f ?l ?s0] =>
          destruct (fold_post_lines n l s0) as (Hp & Hl & Hj & Hb & Hlast)
      end.
      cbn zeta in Hp, Hl, Hj, Hb, Hlast. cbn zeta.
      split; [exact Hb|]. split; [exact Hlast|].
      exists n. finish_flush.
    + destruct discovered as [m|]; cbn [CallbackModule.truthy_int].
      * cbn [CallbackModule.set_job_id CallbackModule.job_id
             CallbackModule._pending_lines CallbackModule._buffer
             CallbackModule._last_progress_sent CallbackModule.posted].
        destruct (negb (m =? 0)) eqn:Ed.
        -- match goal with
           | |- context [fold_left ?f ?l ?s0] =>
               destruct (fold_post_lines m l s0) as (Hp & Hl & Hj & Hb & Hlast)
           end.
           cbn zeta in Hp, Hl, Hj, Hb, Hlast. cbn zeta.
           split; [exact Hb|]. split; [exact Hlast|].
           exists m. finish_flush.
        -- cbn. auto.
      * rewrite Ej. cbn. auto.
    + destruct discovered as [m|]; cbn [CallbackModule.truthy_int].
      * cbn [CallbackModule.set_job_id CallbackModule.job_id
             CallbackModule._pending_lines CallbackModule._buffer
             CallbackModule._last_progress_sent CallbackModule.posted].
        destruct (negb (m =? 0)) eqn:Ed.
        -- match goal with
           | |- context [fold_left ?f ?l ?s0] =>
               destruct (fold_post_lines m l s0) as (Hp & Hl & Hj & Hb & Hlast)
           end.
           cbn zeta in Hp, Hl, Hj, Hb, Hlast. cbn zeta.
           split; [exact Hb|]. split; [exact Hlast|].
           exists m. finish_flush.
        -- cbn. auto.
      * cbn. auto.
Qed.

Lemma flush_nothing_pending (discovered : option Z) (s : CallbackModule.State) :
  CallbackModule._pending_lines s = [] ->
  CallbackModule._flush_pending_lines discovered s = s.
Proof. intros H. unfold CallbackModule._flush_pending_lines. now rewrite H. Qed.

Lemma flush_keeps_all_lines (discovered : option Z) (s : CallbackModule.State) :
  CallbackModule.all_lines (CallbackModule._flush_pending_lines discovered s) =
  CallbackModule.all_lines s.
Proof.
  destruct (flush_pending_lines_spec discovered s) as (_ & _ & H). cbn zeta in H.
  unfold CallbackModule.all_lines.
  destruct (CallbackModule.job_known discovered s).
  - destruct H as (n & _ & _ & Hp & Hl & _). rewrite Hp, Hl, flat_map_app.
    cbn [map]. now rewrite messages_of_line_bodies, app_nil_r.
  - destruct H as [Hp Hl]. now rewrite Hp, Hl.
Qed.

Lemma endswith_newline_terminate (piece : string) :
  CallbackModule.endswith_newline (CallbackModule.terminate piece) = true.
Proof.
  unfold CallbackModule.terminate.
  destruct (CallbackModule.endswith_newline piece) eqn:E; [exact E|]. clear E.
  induction piece as [|c p IH]; [reflexivity|].
  cbn [String.append CallbackModule.endswith_newline].
  destruct p as [|c' p']; [reflexivity|exact IH].
Qed.




(** X18: when a job id arrives through [_update_job_id] (non-zero, and
    not the one already held), every line queued until then is posted under
    that id, in the order it was queued, and nothing stays pending. *)
Theorem update_job_id_posts_the_backlog
        (discovered : option Z) (c : Z) (s : CallbackModule.State) :
  c <> 0 -> CallbackModule.job_id s <> Some c ->
  let s' := CallbackModule._update_job_id discovered (Some c) s in
  CallbackModule.job_id s' = Some c /\
  CallbackModule._pending_lines s' = [] /\
  CallbackModule.posted s' =
    CallbackModule.posted s
    ++ map (CallbackModule.line_body c) (CallbackModule._pending_lines s) /\
  CallbackModule.all_lines s' = CallbackModule.all_lines s.
Proof.
  intros Hc Hj s'.
  assert (Hs' : s' = CallbackModule._flush_pending_lines
                       discovered (CallbackModule.set_job_id (Some c) s)).
  { unfold s', CallbackModule._update_job_id.
    destruct (CallbackModule.job_id s) as [j|]; [|reflexivity].
    destruct (Z.eqb_spec j c); [congruence|reflexivity]. }
  set (s1 := CallbackModule.set_job_id (Some c) s) in Hs'.
  assert (Hall : CallbackModule.all_lines s' = CallbackModule.all_lines s).
  { rewrite Hs', flush_keeps_all_lines. reflexivity. }
  destruct (flush_pending_lines_spec discovered s1) as (_ & _ & H).
  cbn zeta in H. rewrite <- Hs' in H.
  assert (Hk : CallbackModule.job_known discovered s1 = true).
  { unfold CallbackModule.job_known, s1. cbn.
    destruct (Z.eqb_spec c 0); [contradiction|reflexivity]. }
  assert (He : CallbackModule.effective_job_id discovered s1 = Some c).
  { unfold CallbackModule.effective_job_id, s1. cbn.
    destruct (Z.eqb_spec c 0); [contradiction|reflexivity]. }
  rewrite Hk in H. destruct H as (n & Hn & _ & Hp & Hl & Hid).
  rewrite He in Hn. inversion Hn; subst n.
  split; [|split; [exact Hl|split; [exact Hp|exact Hall]]].
  destruct (CallbackModule._pending_lines s1) as [|e l] eqn:Ep.
  - rewrite Hs', (flush_nothing_pending _ _ Ep). reflexivity.
  - apply Hid. discriminate.
Qed.

Lemma update_job_id_posts_the_backlog_witness :
  let queued := CallbackModule._queue_message None (fun t => [t]) (Some "PLAY [all]")
                                              "info" true CallbackModule.reset in
  CallbackModule.posted (CallbackModule._update_job_id None (Some 7) queued) =
  [mkProgressBody 7 (Some (CallbackModule.terminate "PLAY [all]")) (Some "info") None].
Proof.
  intros queued.
  destruct (update_job_id_posts_the_backlog None 7 queued) as (_ & _ & Hp & _).
  - discriminate.
  - discriminate.
  - exact Hp.
Defined.

(** ** The progress counter *)

Lemma post_progress_only (n pct : Z) (s : CallbackModule.State) :
  0 <= pct <= 100 ->
  CallbackModule.post_progress n None "info" (Some pct) s =
  CallbackModule.mkState
    (CallbackModule.job_id s) (CallbackModule._buffer s)
    (CallbackModule._pending_lines s) true (CallbackModule._progress_total s)
    (CallbackModule._tasks_started s) (CallbackModule._last_progress_sent s)
    (CallbackModule.posted s ++ [mkProgressBody n None None (Some pct)]).
Proof.
  intros H. unfold CallbackModule.post_progress, _post_progress. cbn.
  replace (Z.max 0 (Z.min 100 pct)) with pct by lia. reflexivity.
Qed.

Lemma record_task_start_step
      (discovered : option Z) (percent : Z -> Z -> Z) (action : option string)
      (s : CallbackModule.State) :
  let s' := CallbackModule._record_task_start discovered percent action s in
  CallbackModule._pending_lines s' = CallbackModule._pending_lines s /\
  ((CallbackModule.posted s' = CallbackModule.posted s /\
    CallbackModule._last_progress_sent s' = CallbackModule._last_progress_sent s) \/
   (exists n pct,
       CallbackModule.posted s' =
         CallbackModule.posted s ++ [mkProgressBody n None None (Some pct)] /\
       CallbackModule._last_progress_sent s < pct /\ 0 <= pct <= 99 /\
       CallbackModule._last_progress_sent s' = pct)).
Proof.
  destruct s as [j b pend sa tot started last post].
  unfold CallbackModule._record_task_start, CallbackModule._ensure_job_id.
  cbv zeta.
  cbn [CallbackModule.set_tasks_started CallbackModule.set_job_id
       CallbackModule._progress_total CallbackModule._tasks_started
       CallbackModule.job_id CallbackModule._buffer CallbackModule._pending_lines
       CallbackModule._sent_any CallbackModule._last_progress_sent
       CallbackModule.posted].
  destruct (match action with Some a => (a =? "meta")%string | None => false end);
    [cbn; auto|].
  destruct (tot <=? 0); [cbn; auto|].
  set (pct := Z.max 0 (Z.min 99 (percent (started + 1) (Z.max 1 tot)))).
  assert (Hpct : 0 <= pct <= 99) by (unfold pct; lia).
  assert (Hpost : forall n st,
             let s' := if pct >? CallbackModule._last_progress_sent st
                       then CallbackModule.set_last_progress_sent
                              pct (CallbackModule.post_progress n None "info" (Some pct) st)
                       else st in
             CallbackModule._pending_lines s' = CallbackModule._pending_lines st /\
             ((CallbackModule.posted s' = CallbackModule.posted st /\
               CallbackModule._last_progress_sent s'
               = CallbackModule._last_progress_sent st) \/
              (exists n pct,
                  CallbackModule.posted s' =
                    CallbackModule.posted st ++ [mkProgressBody n None None (Some pct)] /\
                  CallbackModule._last_progress_sent st < pct /\ 0 <= pct <= 99 /\
                  CallbackModule._last_progress_sent s' = pct))).
  { intros n st. cbn zeta. rewrite Z.gtb_ltb.
    destruct (Z.ltb_spec (CallbackModule._last_progress_sent st) pct) as [Hlt|Hge];
      [|auto].
    rewrite post_progress_only by lia. cbn. split; [reflexivity|].
    right. exists n, pct. auto. }
  destruct j as [n|]; cbn [CallbackModule.truthy_int].
  - destruct (negb (n =? 0)) eqn:Ej.
    + cbv beta iota. rewrite Ej. apply (Hpost n).
    + destruct discovered as [m|]; cbv beta iota.
      * destruct (negb (m =? 0)); [apply (Hpost m)|cbn; auto].
      * rewrite Ej. cbn. auto.
  - destruct discovered as [m|]; cbv beta iota.
    + destruct (negb (m =? 0)); [apply (Hpost m)|cbn; auto].
    + cbn. auto.
Qed.

(** X19: whatever percentage the floating-point computation gives, the
    progress values that [_record_task_start] posts over the tasks of a run
    are strictly increasing, each above the last one sent before and between
    0 and 99: task starts never report 100 and never report a regression.
    These reports carry no message, and the queue of lines is left alone. *)
Theorem task_progress_is_increasing_below_100
        (discovered : option Z) (percent : Z -> Z -> Z)
        (actions : list (option string)) (s : CallbackModule.State) :
  let s' := CallbackModule.record_tasks discovered percent actions s in
  exists more,
    CallbackModule.posted s' = CallbackModule.posted s ++ more /\
    Forall (fun b => b_message b = None) more /\
    StronglySorted Z.lt
      (CallbackModule._last_progress_sent s :: CallbackModule.progress_values more) /\
    Forall (fun v => 0 <= v <= 99) (CallbackModule.progress_values more) /\
    CallbackModule._last_progress_sent s <= CallbackModule._last_progress_sent s' /\
    CallbackModule._pending_lines s' = CallbackModule._pending_lines s.
Proof.
  unfold CallbackModule.record_tasks. revert s.
  induction actions as [|a l IH]; intros s; cbn zeta; cbn [fold_left].
  - exists []. rewrite app_nil_r. repeat split; try constructor; try lia.
    + constructor.
    + constructor.
  - destruct (record_task_start_step discovered percent a s) as (Hpend & Hstep).
    cbn zeta in Hpend, Hstep.
    set (s1 := CallbackModule._record_task_start discovered percent a s) in *.
    destruct (IH s1) as (more & Hp & Hm & Hs & Hv & Hle & Hpl). cbn zeta in *.
    destruct Hstep as [[Hp1 Hl1]|(n & pct & Hp1 & Hlt & Hr & Hl1)].
    + exists more. rewrite Hp, Hp1, Hpl, Hpend. rewrite Hl1 in Hs, Hle.
      repeat split; assumption.
    + exists (mkProgressBody n None None (Some pct) :: more).
      rewrite Hp, Hp1, Hpl, Hpend, <- app_assoc. rewrite Hl1 in Hs, Hle.
      split; [reflexivity|]. split; [constructor; [reflexivity|exact Hm]|].
      cbn [CallbackModule.progress_values flat_map b_progress app].
      fold (CallbackModule.progress_values more).
      split; [|split; [|split; [lia|reflexivity]]].
      * constructor; [exact Hs|]. constructor; [exact Hlt|].
        inversion Hs as [|? ? _ Hall]; subst.
        rewrite Forall_forall in *. intros v Hv'. specialize (Hall v Hv'). lia.
      * constructor; [exact Hr|exact Hv].
Qed.

(** A percentage that never decreases along the tasks, for the example. *)
Lemma task_progress_example :
  CallbackModule.progress_values
    (CallbackModule.posted
       (CallbackModule.record_tasks
          (Some 3) (fun a b => a * 100 / b)
          [None; Some "meta"; Some "shell"; None; None]
          (CallbackModule.mkState None [] [] false 4 0 0 []))) = [25; 50; 75; 99].
Proof. reflexivity. Qed.

(** * Further edge cases of the service *)

(** X20: after any run from start-up every log row belongs to a job of
    the table, so the log listing of an id that no job has is answered
    normally with an empty list (not with a 404), for every id within the
    signed 64-bit range and every limit and offset below 2^63. *)
Theorem logs_of_unknown_job_are_empty
        (rs : list Report) (clk : nat -> N) (job_id limit offset : Z) :
  let w := run rs (initial clk) in
  (forall row, In row (job_logs (db w)) ->
               exists job, find_job (db w) (log_job_id row) = Some job) /\
  (- 2 ^ 63 <= job_id < 2 ^ 63 -> limit < 2 ^ 63 -> offset < 2 ^ 63 ->
   find_job (db w) job_id = None ->
   api_job_logs job_id limit offset w = (Returned (RespLogs []), w)).
Proof.
  intros w. pose proof (reachable_log_references rs clk) as Hinv. fold w in Hinv.
  split.
  - intros row Hin. apply Hinv in Hin.
    destruct (find_job (db w) (log_job_id row)) as [job|] eqn:E; [eauto|].
    exfalso. apply in_map_iff in Hin. destruct Hin as (j & Hid & Hj).
    unfold find_job in E. apply (find_none _ _ E) in Hj.
    rewrite Hid, Z.eqb_refl in Hj. discriminate.
  - intros Hrange Hl Ho Hq. rewrite (api_job_logs_eq w job_id limit offset Hrange Hl Ho).
    rewrite filter_none.
    + cbn [order_by fold_right]. rewrite skipn_nil, firstn_nil.
      now destruct (limit <=? 0).
    + intros row Hin. apply Z.eqb_neq. intros E. apply Hinv in Hin.
      apply in_map_iff in Hin. destruct Hin as (j & Hid & Hj).
      unfold find_job in Hq. apply (find_none _ _ Hq) in Hj.
      rewrite Hid, E, Z.eqb_refl in Hj. discriminate.
Qed.

Lemma logs_of_unknown_job_are_empty_witness :
  api_job_logs 7 100 0 (run demo_run (initial demo_clock)) =
  (Returned (RespLogs []), run demo_run (initial demo_clock)).
Proof.
  apply (proj2 (logs_of_unknown_job_are_empty demo_run demo_clock 7 100 0)).
  - lia.
  - lia.
  - lia.
  - reflexivity.
Defined.

(** X21: the [job_id] field of a start payload is not used: the id of the
    new job is always assigned by the table, and two start payloads that
    differ only in that field have the same effect and the same answer. *)
Theorem api_start_ignores_supplied_job_id
        (name sc trig : string) (supplied supplied' : option string) (w : World) :
  api_start (mkStartPayload name sc trig supplied) w =
  api_start (mkStartPayload name sc trig supplied') w /\
  fst (api_start (mkStartPayload name sc trig supplied) w) =
  Returned (RespJobId (next_id (map id (jobs (db w))))).
Proof.
  rewrite !api_start_world. split; reflexivity.
Qed.

(** * Custom stats *)

Lemma dict_get_In (key : string) (items : list (string * pyobj)) (v : pyobj) :
  dict_get key items = Some v -> In (key, v) items.
Proof.
  induction items as [|[k x] l IH]; cbn; [discriminate|].
  destruct (String.eqb_spec k key) as [->|_].
  - intros H. inversion H. now left.
  - intros H. right. now apply IH.
Qed.

Lemma find_in_dict_direct (items : list (string * pyobj)) (target : string) (v : pyobj) :
  dict_get target items = Some v -> find_in (PyDict items) target = v.
Proof. intros H. cbn. now rewrite H. Qed.

Lemma find_in_dict_run (items : list (string * pyobj)) (target : string) (r : pyobj) :
  dict_get target items = None ->
  dict_get "_run" items = Some r ->
  find_in (PyDict items) target = find_in r target.
Proof.
  intros Hnone Hrun. cbn. rewrite Hnone.
  match goal with
  | |- match ?f items with _ => _ end = _ =>
      assert (E : f items = Some (find_in r target))
  end.
  { clear Hnone. induction items as [|[k x] l IH]; [discriminate|].
    cbn in Hrun |- *. destruct (k =? "_run")%string.
    - now inversion Hrun.
    - now apply IH. }
  now rewrite E.
Qed.

Lemma find_in_sound (obj : pyobj) (target : string) :
  find_in obj target <> PyNone -> stored_under target (find_in obj target) obj.
Proof.
  induction obj as [| | |items IH|items IH] using pyobj_nested_ind;
      try (cbn; intros H; now contradiction H).
    + intros Hfound. cbn in Hfound |- *.
      destruct (dict_get target items) as [v|] eqn:Ed.
      * apply stored_here. now apply dict_get_In.
      * revert Hfound.
        match goal with
        | |- context [match ?f items with _ => _ end] => set (under_run := f)
        end.
        match goal with
        | |- context [?g items] =>
            match g with
            | under_run => fail 1
            | _ => set (values := g)
            end
        end.
        assert (Hrun : forall l found,
                   (forall kv, In kv l -> In kv items) ->
                   Forall (fun kv => find_in (snd kv) target <> PyNone ->
                                     stored_under target (find_in (snd kv) target)
                                                  (snd kv)) l ->
                   under_run l = Some found -> found <> PyNone ->
                   stored_under target found (PyDict items)).
        { induction l as [|[k x] l IHl]; intros found Hsub Hall; [discriminate|].
          cbn. inversion Hall as [|? ? Hx Hl]; subst. cbn in Hx.
          destruct (k =? "_run")%string.
          - intros E Hne. inversion E; subst found.
            apply (stored_in_value target _ items k x);
              [apply Hsub; now left|now apply Hx].
          - apply IHl; [|exact Hl]. intros kv Hkv. apply Hsub. now right. }
        assert (Hvals : forall l,
                   (forall kv, In kv l -> In kv items) ->
                   Forall (fun kv => find_in (snd kv) target <> PyNone ->
                                     stored_under target (find_in (snd kv) target)
                                                  (snd kv)) l ->
                   values l <> PyNone ->
                   stored_under target (values l) (PyDict items)).
        { induction l as [|[k x] l IHl]; intros Hsub Hall; cbn;
            [intros H; now contradiction H|].
          inversion Hall as [|? ? Hx Hl]; subst. cbn in Hx.
          assert (Hl' : values l <> PyNone ->
                        stored_under target (values l) (PyDict items)).
          { apply IHl; [|exact Hl]. intros kv Hkv. apply Hsub. now right. }
          assert (Hx' : find_in x target <> PyNone ->
                        stored_under target (find_in x target) (PyDict items)).
          { intros Hne. apply (stored_in_value target _ items k x);
              [apply Hsub; now left|now apply Hx]. }
          destruct (find_in x target); try (intros _; apply Hx'; discriminate).
          exact Hl'. }
        destruct (under_run items) as [found|] eqn:Er.
        -- intros Hne. apply (Hrun items found); auto.
        -- intros Hne. apply Hvals; auto.
    + intros Hfound. cbn in Hfound |- *. revert Hfound.
      match goal with
      | |- context [?g items] => set (each := g)
      end.
      assert (Heach : forall l,
                 (forall it, In it l -> In it items) ->
                 Forall (fun it => find_in it target <> PyNone ->
                                   stored_under target (find_in it target) it) l ->
                 each l <> PyNone ->
                 stored_under target (each l) (PyList items)).
      { induction l as [|x l IHl]; intros Hsub Hall; cbn;
          [intros H; now contradiction H|].
        inversion Hall as [|? ? Hx Hl]; subst.
        assert (Hl' : each l <> PyNone ->
                      stored_under target (each l) (PyList items)).
        { apply IHl; [|exact Hl]. intros it Hit. apply Hsub. now right. }
        assert (Hx' : find_in x target <> PyNone ->
                      stored_under target (find_in x target) (PyList items)).
        { intros Hne. apply (stored_in_item target _ items x);
            [apply Hsub; now left|now apply Hx]. }
        destruct (find_in x target); try (intros _; apply Hx'; discriminate).
        exact Hl'. }
      apply Heach; auto.
Qed.

(** X22: the search of [_get_custom_stat].  A key of the dict at hand
    wins over anything nested, even when its value is [None], in which case
    nothing is found; a dict without the key but with a ["_run"] entry is
    searched only under ["_run"], whatever its other entries hold; scalars
    hold nothing.  Whatever the search returns, other than [None], is the
    value stored under the key in some dict of the searched object. *)
Theorem find_in_returns_a_stored_value (obj : pyobj) (target : string) :
  (forall items v, obj = PyDict items -> dict_get target items = Some v ->
                   find_in obj target = v) /\
  (forall items r, obj = PyDict items -> dict_get target items = None ->
                   dict_get "_run" items = Some r ->
                   find_in obj target = find_in r target) /\
  (find_in obj target <> PyNone -> stored_under target (find_in obj target) obj).
Proof.
  split; [|split].
  - intros items v -> H. now apply find_in_dict_direct.
  - intros items r -> Hn Hr. now apply find_in_dict_run.
  - apply find_in_sound.
Qed.

(** X23: [_get_custom_stat] asks [stats.custom] first, then
    [stats._custom], then [stats.get_custom_stats()]: the first source in
    which the search finds something other than [None] decides, a missing
    source counts as finding nothing, and what is returned, other than
    [None], is stored under the key in one of the sources. *)
Theorem get_custom_stat_takes_first_source
        (custom _custom from_getter : option pyobj) (key : string) :
  let look (source : option pyobj) :=
    match source with Some obj => find_in obj key | None => PyNone end in
  let r := _get_custom_stat custom _custom from_getter key in
  (look custom <> PyNone -> r = look custom) /\
  (look custom = PyNone -> look _custom <> PyNone -> r = look _custom) /\
  (look custom = PyNone -> look _custom = PyNone -> r = look from_getter) /\
  (r <> PyNone ->
   exists obj,
     (custom = Some obj \/ _custom = Some obj \/ from_getter = Some obj) /\
     stored_under key r obj).
Proof.
  intros look r.
  assert (Hlook : forall source, look source <> PyNone ->
                    exists obj, source = Some obj /\ stored_under key (look source) obj).
  { intros [obj|] H; [|now contradiction H]. exists obj. split; [reflexivity|].
    now apply find_in_sound. }
  assert (H1 : look custom <> PyNone -> r = look custom).
  { unfold r, _get_custom_stat. fold (look custom).
    destruct (look custom); try reflexivity. intros H. now contradiction H. }
  assert (H2 : look custom = PyNone -> look _custom <> PyNone -> r = look _custom).
  { unfold r, _get_custom_stat. fold (look custom) (look _custom). intros ->.
    destruct (look _custom); try reflexivity. intros H. now contradiction H. }
  assert (H3 : look custom = PyNone -> look _custom = PyNone -> r = look from_getter).
  { unfold r, _get_custom_stat. fold (look custom) (look _custom) (look from_getter).
    now intros -> ->. }
  split; [exact H1|]. split; [exact H2|]. split; [exact H3|].
  intros Hr.
  assert (Dec : forall o : pyobj, o = PyNone \/ o <> PyNone).
  { intros []; (now left) || (right; discriminate). }
  destruct (Dec (look custom)) as [E1|N1].
  - destruct (Dec (look _custom)) as [E2|N2].
    + rewrite (H3 E1 E2) in Hr |- *. destruct (Hlook _ Hr) as (obj & -> & Hs). eauto.
    + rewrite (H2 E1 N2). destruct (Hlook _ N2) as (obj & -> & Hs). eauto.
  - rewrite (H1 N1). destruct (Hlook _ N1) as (obj & -> & Hs). eauto.
Qed.


(** * Settings *)

Lemma settings_get_set (key value name : string) (settings : list (string * string)) :
  settings_get name (settings_set key value settings) =
  if (key =? name)%string then Some value else settings_get name settings.
Proof.
  induction settings as [|[k v] rest IH]; cbn.
  - reflexivity.
  - destruct (String.eqb_spec k key) as [->|Hk]; cbn.
    + destruct (String.eqb_spec key name); reflexivity.
    + rewrite IH. destruct (String.eqb_spec k name) as [->|_]; [|reflexivity].
      destruct (String.eqb_spec key name); [congruence|reflexivity].
Qed.

Lemma settings_get_app (name : string) (l l' : list (string * string)) :
  settings_get name (l ++ l') =
  match settings_get name l with
  | Some v => Some v
  | None => settings_get name l'
  end.
Proof.
  induction l as [|[k v] l IH]; cbn; [reflexivity|].
  destruct (k =? name)%string; [reflexivity|exact IH].
Qed.

Lemma load_env_file_fold (strip : string -> string) (name : string)
      (raw_lines : list string) (settings : list (string * string)) :
  settings_get name
    (fold_left (fun settings raw_line =>
                  match line_binding strip raw_line with
                  | Some (key, value) => settings_set key value settings
                  | None => settings
                  end)
               raw_lines settings) =
  match last_binding name (bindings strip raw_lines) with
  | Some v => Some v
  | None => settings_get name settings
  end.
Proof.
  unfold last_binding. revert settings.
  induction raw_lines as [|raw l IH]; intros settings; cbn [fold_left bindings flat_map].
  - reflexivity.
  - rewrite IH. fold (bindings strip l). rewrite rev_app_distr, settings_get_app.
    destruct (settings_get name (rev (bindings strip l))); [reflexivity|].
    destruct (line_binding strip raw) as [[key value]|]; cbn; [|reflexivity].
    rewrite settings_get_set. now destruct (key =? name)%string.
Qed.

Lemma split_once_at_first_equals (key value : string) :
  has_equals key = false ->
  split_once (String.append key (String "=" value)) = Some (key, value).
Proof.
  induction key as [|c key IH]; cbn; [reflexivity|].
  destruct (Ascii.eqb c "="); [discriminate|]. cbn. intros H. now rewrite IH.
Qed.

(** X24: what [_load_env_file] keeps of [dashboard.env].  The value found
    for a name is the one of the last line that assigns it; blank lines,
    comment lines, lines without ['='] and lines with an empty key assign
    nothing; a missing or unreadable file gives no settings.  A line
    [key=value] whose key holds no ['='] is split at the first ['='], so
    the value may hold more of them. *)
Theorem load_env_file_last_assignment_wins
        (strip : string -> string) (raw_lines : list string) (name : string) :
  settings_get name (_load_env_file strip (Some raw_lines)) =
    last_binding name (bindings strip raw_lines) /\
  _load_env_file strip None = [] /\
  (forall raw, strip raw = EmptyString \/ startswith_hash (strip raw) = true \/
               has_equals (strip raw) = false ->
               line_binding strip raw = None) /\
  (forall key value,
      key <> EmptyString -> startswith_hash key = false -> has_equals key = false ->
      strip (String.append key (String "=" value)) = String.append key (String "=" value) ->
      strip key = key -> strip value = value ->
      line_binding strip (String.append key (String "=" value)) = Some (key, value)).
Proof.
  split; [|split; [reflexivity|split]].
  - unfold _load_env_file. rewrite load_env_file_fold.
    now destruct (last_binding name (bindings strip raw_lines)).
  - intros raw H. unfold line_binding.
    destruct H as [->|[H|H]]; [reflexivity| |].
    + rewrite H. now rewrite orb_true_r.
    + destruct ((strip raw =? EmptyString)%string || startswith_hash (strip raw));
        [reflexivity|].
      assert (Hs : forall s, has_equals s = false -> split_once s = None).
      { induction s as [|c s IHs]; cbn; [reflexivity|].
        destruct (Ascii.eqb c "="); [discriminate|]. cbn. intros E.
        now rewrite (IHs E). }
      now rewrite (Hs _ H).
  - intros key value Hne Hhash Heq Hline Hkey Hvalue. unfold line_binding.
    rewrite Hline.
    assert (Hstart : startswith_hash (String.append key (String "=" value)) = false).
    { destruct key; [contradiction|exact Hhash]. }
    assert (Hnonempty : (String.append key (String "=" value) =? EmptyString)%string
                        = false).
    { destruct key; reflexivity. }
    rewrite Hstart, Hnonempty. cbn [orb].
    rewrite (split_once_at_first_equals key value Heq), Hkey, Hvalue.
    destruct (String.eqb_spec key EmptyString); [contradiction|reflexivity].
Qed.

(** X25: [_get_setting] takes the value of the process environment when
    the variable is set, else the one [dashboard.env] assigns (the last
    assignment of the file), else the default. *)
Theorem get_setting_precedence
        (strip : string -> string) (getenv : string -> option string)
        (raw_lines : list string) (name : string) (default : option string) :
  let settings := _load_env_file strip (Some raw_lines) in
  _get_setting getenv settings name default =
  match getenv name with
  | Some value => Some value
  | None =>
      match last_binding name (bindings strip raw_lines) with
      | Some value => Some value
      | None => default
      end
  end.
Proof.
  intros settings. unfold _get_setting.
  destruct (getenv name); [reflexivity|].
  assert (H : settings_get name settings = last_binding name (bindings strip raw_lines)).
  { unfold settings, _load_env_file. rewrite load_env_file_fold.
    now destruct (last_binding name (bindings strip raw_lines)). }
  rewrite <- H. destruct settings as [|kv rest]; reflexivity.
Qed.

(** * From the queue to the log *)

Lemma terminate_not_empty (piece : string) :
  CallbackModule.terminate piece <> EmptyString.
Proof.
  intros E. pose proof (endswith_newline_terminate piece) as H.
  rewrite E in H. discriminate H.
Qed.

(** X26: a line posted from the reporter's queue to a known job becomes
    exactly one log row of that job, with the line as message and the
    queued level (info when the level is empty, since the key is then left
    out and the service fills in its default); the job's own row is not
    changed.  Every queued line qualifies, since it ends with a newline. *)
Theorem posted_line_becomes_log_row
        (w : World) (job : Job) (n : Z) (entry : string * string) :
  query_job (db w) n = Returned (Some job) ->
  fst entry <> EmptyString ->
  let payload := ProgressPayload_validate (CallbackModule.line_body n entry) in
  let w' := snd (api_progress payload w) in
  fst (api_progress payload w) = Returned RespOk /\
  job_logs (db w') =
    job_logs (db w) ++
    [mkJobLog (next_id (map log_id (job_logs (db w)))) n (time_at w (ticks w))
              (if (snd entry =? EmptyString)%string then "info" else snd entry)
              (fst entry)] /\
  find_job (db w') n = Some job /\
  (forall piece level, entry = (CallbackModule.terminate piece, level) ->
                       fst entry <> EmptyString).
Proof.
  intros Hq Hne payload w'.
  assert (Hq' : query_job (db w) (pp_job_id payload) = Returned (Some job))
    by exact Hq.
  destruct (api_progress_effect payload w job Hq') as (Hr & _ & Hl & _).
  pose proof (api_progress_row payload w job Hq') as Hrow.
  apply query_job_known in Hrow. destruct Hrow as [_ Hrow].
  fold w' in Hl, Hrow.
  split; [exact Hr|]. split; [|split; [exact Hrow|]].
  - rewrite Hl. unfold payload, CallbackModule.line_body.
    cbn [pp_message pp_level pp_job_id ProgressPayload_validate b_message b_level
         b_job_id text_of].
    rewrite (truthy_Some _ Hne). do 3 f_equal.
    destruct (String.eqb_spec (snd entry) EmptyString) as [E|E]; [reflexivity|].
    cbn. destruct (String.eqb_spec (snd entry) EmptyString); [contradiction|reflexivity].
  - intros piece level ->. apply terminate_not_empty.
Qed.

Lemma posted_line_becomes_log_row_witness :
  let payload := ProgressPayload_validate
                   (CallbackModule.line_body 1 (CallbackModule.terminate "ok: [web1]",
                                                EmptyString)) in
  exists row,
    job_logs (db (snd (api_progress payload demo_world))) =
      job_logs (db demo_world) ++ [row]
    /\ level row = "info"
    /\ message row = CallbackModule.terminate "ok: [web1]".
Proof.
  intros payload.
  destruct (posted_line_becomes_log_row demo_world _ 1
              (CallbackModule.terminate "ok: [web1]", EmptyString) demo_world_job)
    as (_ & Hl & _).
  - intros E. vm_compute in E. discriminate E.
  - eexists. split; [exact Hl|]. split; reflexivity.
Defined.
